(** * draft-js-create-inline-style-plugin: the style reconciliation core

    A shallow embedding of [src/index.js].  The plugin keeps the inline
    styles of a rich-text document in step with a list of rules
    (strategy, styles).  The document model and the persistent
    collections it is built on belong to the host libraries (draft-js
    and immutable); the part of them that the plugin calls is modelled
    in the modules [Immutable] and [Draft] below, the plugin itself
    follows the source function by function.

    Conventions
    - JavaScript numbers used as offsets are integers, modelled in [Z].
    - A JavaScript exception is a value of [error]; code that can throw
      returns a [Result].
    - The counter [changesApplied], a closure variable bumped by
      [incrementApplied], is threaded through the folds explicitly.
    - [setTimeout] callbacks are kept in a queue of [Timer]s owned by
      the [Host]; they run one at a time, in order. *)

From stdpp Require Import base numbers list strings.

Local Open Scope Z_scope.

(** ** Exceptions *)

Inductive error : Type :=
| TypeError (what : string)
| Thrown (payload : string).

Inductive Result (A : Type) : Type :=
| Ok (a : A)
| Throw (e : error).
Arguments Ok {A} a.
Arguments Throw {A} e.

Definition bind {A B : Type} (m : Result A) (k : A -> Result B) : Result B :=
  match m with
  | Ok a => k a
  | Throw e => Throw e
  end.

Notation "'let*' x := m 'in' k" := (bind m (fun x => k))
  (at level 10, x pattern, m at level 100, k at level 200).

(** [Array.prototype.reduce] with a reducer that may throw: the first
    exception leaves the loop. *)
Fixpoint reduce {A B : Type} (f : A -> B -> Result A) (l : list B) (acc : A) : Result A :=
  match l with
  | [] => Ok acc
  | x :: rest => let* acc' := f acc x in reduce f rest acc'
  end.

#[global] Instance error_eq_dec : EqDecision error.
Proof. solve_decision. Defined.

#[global] Instance Result_eq_dec {A : Type} `{EqDecision A} : EqDecision (Result A).
Proof. solve_decision. Defined.

(** ** The persistent collections (immutable) *)

Module Immutable.

(** Modelled from the spec: the host's persistent collections (§9
    "immutable persistent document updates") are not part of src/.
    An [OrderedSet] of style names is the list of its members in
    insertion order; [add] keeps the position of a member that is
    already there. *)
Definition OrderedSet_add (s : string) (o : list string) : list string :=
  if decide (s ∈ o) then o else o ++ [s].

(** Modelled from the spec: [OrderedSet.toList] of the host
    collections, not part of src/: the members in insertion order. *)
Definition toList (o : list string) : list string := o.

(** Modelled from the spec: index resolution of [List.slice] in the
    host collections, not part of src/: a negative index counts from
    the end, and the result is kept inside [0, size]. *)
Definition resolveIndex (index size : Z) : Z :=
  if index <? 0 then Z.max 0 (size + index) else Z.min size index.

(** Modelled from the spec: [List.slice(begin, end)] of the host
    collections, not part of src/: the entries from the resolved
    [begin] up to, not including, the resolved [end]; empty when the
    end does not lie after the beginning. *)
Definition slice {A : Type} (l : list A) (begin end_ : Z) : list A :=
  let size := Z.of_nat (length l) in
  let b := resolveIndex begin size in
  let e := resolveIndex end_ size in
  take (Z.to_nat (e - b)) (drop (Z.to_nat b) l).

(** Modelled from the spec: [List.get(index)] of the host
    collections, not part of src/: a negative index counts from the
    end; outside the list the answer is [undefined]. *)
Definition get {A : Type} (l : list A) (index : Z) : option A :=
  let size := Z.of_nat (length l) in
  let i := if index <? 0 then size + index else index in
  if (0 <=? i) && (i <? size) then l !! Z.to_nat i else None.

(** Modelled from the spec: [List.set(index, value)] of the host
    collections, not part of src/, at an index that [get] finds. *)
Definition set {A : Type} (l : list A) (index : Z) (v : A) : list A :=
  let size := Z.of_nat (length l) in
  let i := if index <? 0 then size + index else index in
  <[Z.to_nat i := v]> l.

(** Modelled from the spec: [Repeat(value, times)] of the host
    collections, not part of src/: [times] copies of [value]. *)
Definition Repeat {A : Type} (v : A) (times : nat) : list A := replicate times v.

(** Modelled from the spec: [equals] of the host collections, not
    part of src/: two indexed collections are equal when they have
    the same size and equal entries at every index, entries that are
    collections being compared the same way. *)
Definition equals (a b : list (list string)) : bool := bool_decide (a = b).

End Immutable.

(** ** The document model (draft-js) *)

Module Draft.

(** Modelled from the spec: the character-level style set of §3
    (draft-js [CharacterMetadata]), not part of src/. *)
Record CharacterMetadata : Type := {
  getStyle : list string;
  getEntity : option string
}.

(** Modelled from the spec: [CharacterMetadata.applyStyle] of the
    host, not part of src/: the character with the style added to
    its set. *)
Definition applyStyle (c : CharacterMetadata) (style : string) : CharacterMetadata :=
  {| getStyle := Immutable.OrderedSet_add style (getStyle c);
     getEntity := getEntity c |}.

(** Modelled from the spec: a Block of §3 (draft-js [ContentBlock]),
    not part of src/: a stable key, the text, and one style set per
    character. *)
Record ContentBlock : Type := {
  getKey : string;
  getText : string;
  getCharacterList : list CharacterMetadata
}.

(** Modelled from the spec: a Selection of §3 (draft-js
    [SelectionState]), not part of src/. *)
Record SelectionState : Type := {
  anchorKey : string;
  anchorOffset : Z;
  focusKey : string;
  focusOffset : Z;
  isBackward : bool;
  hasFocus : bool
}.

(** [SelectionState.createEmpty(key)]: a collapsed selection at the
    start of the block. *)
Definition createEmpty (key : string) : SelectionState :=
  {| anchorKey := key; anchorOffset := 0; focusKey := key; focusOffset := 0;
     isBackward := false; hasFocus := false |}.

(** [selection.set('anchorOffset', o)], and the same for the other
    fields the plugin and the host set. *)
Definition set_anchorOffset (s : SelectionState) (o : Z) : SelectionState :=
  {| anchorKey := anchorKey s; anchorOffset := o; focusKey := focusKey s;
     focusOffset := focusOffset s; isBackward := isBackward s; hasFocus := hasFocus s |}.

Definition set_focusOffset (s : SelectionState) (o : Z) : SelectionState :=
  {| anchorKey := anchorKey s; anchorOffset := anchorOffset s; focusKey := focusKey s;
     focusOffset := o; isBackward := isBackward s; hasFocus := hasFocus s |}.

Definition set_hasFocus (s : SelectionState) (f : bool) : SelectionState :=
  {| anchorKey := anchorKey s; anchorOffset := anchorOffset s; focusKey := focusKey s;
     focusOffset := focusOffset s; isBackward := isBackward s; hasFocus := f |}.

(** The start of a selection is its anchor, or its focus when the
    selection is backward; the end is the other one. *)
Definition getStartKey (s : SelectionState) : string :=
  if isBackward s then focusKey s else anchorKey s.
Definition getStartOffset (s : SelectionState) : Z :=
  if isBackward s then focusOffset s else anchorOffset s.
Definition getEndOffset (s : SelectionState) : Z :=
  if isBackward s then anchorOffset s else focusOffset s.
Definition isCollapsed (s : SelectionState) : bool :=
  bool_decide (anchorKey s = focusKey s) && (anchorOffset s =? focusOffset s).

(** Modelled from the spec: the Document of §3 (draft-js
    [ContentState]), not part of src/: the blocks in document order,
    each under its own key, and the selections recorded with the
    version. *)
Record ContentState : Type := {
  getBlockMap : list ContentBlock;
  getSelectionBefore : SelectionState;
  getSelectionAfter : SelectionState
}.

(** [blockMap.get(key)] *)
Fixpoint lookupBlock (blocks : list ContentBlock) (key : string) : option ContentBlock :=
  match blocks with
  | [] => None
  | b :: rest => if decide (getKey b = key) then Some b else lookupBlock rest key
  end.

(** [getBlockForKey] answers [undefined] for a key that is not in
    the document. *)
Definition getBlockForKey (c : ContentState) (key : string) : option ContentBlock :=
  lookupBlock (getBlockMap c) key.

(** [blockMap.set(key, block)] on an existing key: the entry is
    replaced where it stands. *)
Fixpoint setBlock (blocks : list ContentBlock) (key : string) (nb : ContentBlock)
  : list ContentBlock :=
  match blocks with
  | [] => []
  | b :: rest =>
      if decide (getKey b = key) then nb :: rest else b :: setBlock rest key nb
  end.

#[global] Instance CharacterMetadata_eq_dec : EqDecision CharacterMetadata.
Proof. solve_decision. Defined.
#[global] Instance ContentBlock_eq_dec : EqDecision ContentBlock.
Proof. solve_decision. Defined.
#[global] Instance SelectionState_eq_dec : EqDecision SelectionState.
Proof. solve_decision. Defined.
#[global] Instance ContentState_eq_dec : EqDecision ContentState.
Proof. solve_decision. Defined.

(** Modelled from the spec: the editor-state version of §3 and §6
    (draft-js [EditorState]), not part of src/: the current
    document, the selection, the forced next-character style
    override ([None] when nothing is forced) and the undo history. *)
Record EditorState : Type := {
  getCurrentContent : ContentState;
  getSelection : SelectionState;
  mustForceSelection : bool;
  getInlineStyleOverride : option (list string);
  getUndoStack : list ContentState;
  getLastChangeType : option string
}.

#[global] Instance EditorState_eq_dec : EqDecision EditorState.
Proof. solve_decision. Defined.

(** Modelled from the spec: "push a new content version into a new
    editor-state version" (§6, draft-js [EditorState.push]), not
    part of src/.  Pushing the content the state already has gives
    the state back; otherwise the old content goes on the undo
    stack, the selection becomes the one recorded after the change
    and the style override is dropped.  Object identity of contents
    is rendered by equality. *)
Definition push (editorState : EditorState) (contentState : ContentState)
    (changeType : option string) : EditorState :=
  if decide (getCurrentContent editorState = contentState) then editorState
  else
    {| getCurrentContent :=
         {| getBlockMap := getBlockMap contentState;
            getSelectionBefore := getSelection editorState;
            getSelectionAfter := getSelectionAfter contentState |};
       getSelection := getSelectionAfter contentState;
       mustForceSelection := true;
       getInlineStyleOverride := None;
       getUndoStack := getCurrentContent editorState :: getUndoStack editorState;
       getLastChangeType := changeType |}.

(** Setting the selection of an editor state drops the style
    override. *)
Definition updateSelection (editorState : EditorState) (selection : SelectionState)
    (force : bool) : EditorState :=
  {| getCurrentContent := getCurrentContent editorState;
     getSelection := selection;
     mustForceSelection := force;
     getInlineStyleOverride := None;
     getUndoStack := getUndoStack editorState;
     getLastChangeType := getLastChangeType editorState |}.

(** Modelled from the spec: "optionally re-applying a given
    selection" (§6, draft-js [EditorState.acceptSelection]), not
    part of src/. *)
Definition acceptSelection (editorState : EditorState) (selection : SelectionState)
  : EditorState :=
  updateSelection editorState selection false.

(** Modelled from the spec: forcing the selection to be active
    (§4.4, draft-js [EditorState.forceSelection]), not part of
    src/. *)
Definition forceSelection (editorState : EditorState) (selection : SelectionState)
  : EditorState :=
  updateSelection editorState
    (if hasFocus selection then selection else set_hasFocus selection true) true.

(** Modelled from the spec: "read/clear a forced next-character
    style override" (§6, draft-js [EditorState.setInlineStyleOverride]),
    not part of src/. *)
Definition setInlineStyleOverride (editorState : EditorState) (o : list string)
  : EditorState :=
  {| getCurrentContent := getCurrentContent editorState;
     getSelection := getSelection editorState;
     mustForceSelection := mustForceSelection editorState;
     getInlineStyleOverride := Some o;
     getUndoStack := getUndoStack editorState;
     getLastChangeType := getLastChangeType editorState |}.

(** [block.getLength()] is [block.getText().length]. *)
Definition getLength (b : ContentBlock) : Z := Z.of_nat (String.length (getText b)).

(** The style set of the character at [offset], empty when there is
    no such character. *)
Definition getInlineStyleAt (b : ContentBlock) (offset : Z) : list string :=
  match Immutable.get (getCharacterList b) offset with
  | Some c => getStyle c
  | None => []
  end.

(** The blocks above [fromKey], nearest first. *)
Fixpoint blocksAbove (blocks : list ContentBlock) (fromKey : string) (seen : list ContentBlock)
  : list ContentBlock :=
  match blocks with
  | [] => []
  | b :: rest =>
      if decide (getKey b = fromKey) then seen else blocksAbove rest fromKey (b :: seen)
  end.

(** The style of the last character of the nearest block above that
    has text. *)
Definition lookUpwardForInlineStyle (content : ContentState) (fromKey : string) : list string :=
  match filter (fun b => 0 < getLength b) (blocksAbove (getBlockMap content) fromKey []) with
  | b :: _ => getInlineStyleAt b (getLength b - 1)
  | [] => []
  end.

(** Modelled from the spec: "compute currently active inline styles
    at the forced selection" (§6, draft-js
    [EditorState.getCurrentInlineStyle]), not part of src/: the
    override when one is set, otherwise the style of the character
    next to the start of the selection, looking upward through the
    blocks when the block of the selection has none. *)
Definition getCurrentInlineStyle (editorState : EditorState) : Result (list string) :=
  match getInlineStyleOverride editorState with
  | Some o => Ok o
  | None =>
      let content := getCurrentContent editorState in
      let selection := getSelection editorState in
      let startKey := getStartKey selection in
      let startOffset := getStartOffset selection in
      match getBlockForKey content startKey with
      | None => Throw (TypeError "startBlock is undefined")
      | Some startBlock =>
          if isCollapsed selection then
            if 0 <? startOffset then Ok (getInlineStyleAt startBlock (startOffset - 1))
            else if 0 <? getLength startBlock then Ok (getInlineStyleAt startBlock 0)
            else Ok (lookUpwardForInlineStyle content startKey)
          else
            if startOffset <? getLength startBlock
            then Ok (getInlineStyleAt startBlock startOffset)
            else if 0 <? startOffset then Ok (getInlineStyleAt startBlock (startOffset - 1))
            else Ok (lookUpwardForInlineStyle content startKey)
      end
  end.

(** The loop of the host's style modifier:
    [while (sliceStart < sliceEnd) { current = chars.get(sliceStart);
    chars = chars.set(sliceStart, applyStyle(current, style)); sliceStart++ }].
    It runs [sliceEnd - sliceStart] times; reading past the list gives
    [undefined], on which [applyStyle] raises a TypeError. *)
Fixpoint styleLoop (style : string) (steps : nat) (sliceStart : Z)
    (chars : list CharacterMetadata) : Result (list CharacterMetadata) :=
  match steps with
  | O => Ok chars
  | S steps' =>
      match Immutable.get chars sliceStart with
      | None => Throw (TypeError "current is undefined")
      | Some current =>
          styleLoop style steps' (sliceStart + 1)
            (Immutable.set chars sliceStart (applyStyle current style))
      end
  end.

(** [block.set('characterList', chars)] *)
Definition set_characterList (b : ContentBlock) (chars : list CharacterMetadata)
  : ContentBlock :=
  {| getKey := getKey b; getText := getText b; getCharacterList := chars |}.

(** Modelled from the spec: "replace inline styles ... over a
    selection, returning a new content version" (§6, draft-js
    [Modifier.applyInlineStyle]), not part of src/.  The selections
    the plugin builds start and end in one block; the style is added
    to every character from the start offset up to the end offset of
    that block, and the selection is recorded with the new version. *)
Definition applyInlineStyle (contentState : ContentState) (selectionState : SelectionState)
    (inlineStyle : string) : Result ContentState :=
  let startKey := getStartKey selectionState in
  let startOffset := getStartOffset selectionState in
  let endOffset := getEndOffset selectionState in
  match getBlockForKey contentState startKey with
  | None => Throw (TypeError "block is undefined")
  | Some block =>
      let* chars := styleLoop inlineStyle (Z.to_nat (endOffset - startOffset))
                      startOffset (getCharacterList block) in
      Ok {| getBlockMap :=
              setBlock (getBlockMap contentState) startKey (set_characterList block chars);
            getSelectionBefore := selectionState;
            getSelectionAfter := selectionState |}
  end.

(** JavaScript's [String.prototype.slice] on offsets inside the
    string. *)
Definition text_slice (s : string) (from to : nat) : string :=
  String.substring from (to - from) s.

(** Modelled from the spec: "replace ... full text content over a
    selection, returning a new content version" (§6, draft-js
    [Modifier.replaceText]), not part of src/.  The range of the one
    block the selection lies in is removed and [text] is inserted in
    its place, every inserted character carrying [inlineStyle] and
    no entity; the caret after the inserted text is recorded with
    the new version.  A collapsed range with empty text leaves the
    content as it is; a block that is not there is [undefined], and
    reading it raises a TypeError. *)
Definition replaceText (contentState : ContentState) (rangeToReplace : SelectionState)
    (text : string) (inlineStyle : list string) : Result ContentState :=
  let startKey := getStartKey rangeToReplace in
  let startOffset := Z.to_nat (getStartOffset rangeToReplace) in
  let endOffset := Z.to_nat (getEndOffset rangeToReplace) in
  if isCollapsed rangeToReplace && bool_decide (text = EmptyString) then Ok contentState
  else
    match getBlockForKey contentState startKey with
    | None => Throw (TypeError "block is undefined")
    | Some block =>
        let character := {| getStyle := inlineStyle; getEntity := None |} in
        let len := String.length (getText block) in
        let newBlock :=
          {| getKey := getKey block;
             getText := (text_slice (getText block) 0 startOffset +:+ text +:+
                         text_slice (getText block) endOffset len)%string;
             getCharacterList :=
               take startOffset (getCharacterList block) ++
               replicate (String.length text) character ++
               drop endOffset (getCharacterList block) |} in
        let newOffset := Z.of_nat (startOffset + String.length text) in
        Ok {| getBlockMap := setBlock (getBlockMap contentState) startKey newBlock;
              getSelectionBefore := rangeToReplace;
              getSelectionAfter :=
                {| anchorKey := startKey; anchorOffset := newOffset;
                   focusKey := startKey; focusOffset := newOffset;
                   isBackward := false; hasFocus := hasFocus rangeToReplace |} |}
    end.

End Draft.

Import Draft.

(** ** The plugin: src/index.js *)

(** What one call [decorator.strategy(block, callback)] does, as far
    as the plugin can see: the [(start, end)] pairs passed to the
    callback, in order, and the exception that ended the call, if
    any. *)
Record Run : Type := {
  reported : list (Z * Z);
  raised : option error
}.

(** A rule: [{ strategy, styles }]. *)
Record InlineStyleDecorator : Type := {
  strategy : ContentBlock -> Run;
  styles : list string
}.

(** [{ blockKey, start, end, styles }]; the fields [end] and [styles]
    are [end_] and [change_styles] here. *)
Record StyleChange : Type := {
  start : Z;
  end_ : Z;
  change_styles : list string;
  blockKey : string
}.

#[global] Instance StyleChange_eq_dec : EqDecision StyleChange.
Proof. solve_decision. Defined.

(** The callback [cb(block.getKey())] pushes one change per report. *)
Definition pushed (decorator : InlineStyleDecorator) (key : string) (r : Z * Z) : StyleChange :=
  {| blockKey := key; start := r.1; end_ := r.2; change_styles := styles decorator |}.

(** [blockMap.forEach(block => { decorator.strategy(block, cb(block.getKey())) })]
    over the blocks that are left, [changes] being the array filled so
    far.  The array is local to the call: it is lost when a strategy
    throws. *)
Fixpoint forEachBlock (decorator : InlineStyleDecorator) (blocks : list ContentBlock)
    (changes : list StyleChange) : Result (list StyleChange) :=
  match blocks with
  | [] => Ok changes
  | block :: rest =>
      let run := strategy decorator block in
      let changes' := changes ++ map (pushed decorator (getKey block)) (reported run) in
      match raised run with
      | Some e => Throw e
      | None => forEachBlock decorator rest changes'
      end
  end.

Definition getChangesToApplyForState (decorator : InlineStyleDecorator)
    (editorState : EditorState) : Result (list StyleChange) :=
  forEachBlock decorator (getBlockMap (getCurrentContent editorState)) [].

(** [block.getText()] on [undefined] raises a TypeError. *)
Definition limitSelection (selection : SelectionState) (block : option ContentBlock)
  : Result SelectionState :=
  let anchored := set_anchorOffset selection (Z.max (getStartOffset selection) 0) in
  match block with
  | None => Throw (TypeError "block is undefined")
  | Some b =>
      Ok (set_focusOffset anchored (Z.min (getLength b) (getEndOffset selection)))
  end.

Definition createSelectionForChange (change : StyleChange) : SelectionState :=
  set_focusOffset (set_anchorOffset (createEmpty (blockKey change)) (start change))
    (end_ change).

(** The comparison made for each style of a change: the style lists of
    the characters in the slice of the block, read from [content],
    against as many copies of the whole array [styles]. *)
Definition needToChange (block : ContentBlock) (selection : SelectionState)
    (styles : list string) : bool :=
  let chars := Immutable.slice (getCharacterList block)
                 (getStartOffset selection) (getEndOffset selection) in
  let stylesInBlock := map (fun e => Immutable.toList (getStyle e)) chars in
  let styleList := Immutable.Repeat styles (length stylesInBlock) in
  negb (Immutable.equals stylesInBlock styleList).

(** The reducer of [applyInlineStyles], [(accContent, style) => ...];
    the second component of the accumulator is the counter behind
    [incrementApplied].  The block is read from [content], the
    argument of [applyInlineStyles], on every round. *)
Definition styleReducer (content : ContentState) (selection : SelectionState)
    (styles : list string) (acc : ContentState * nat) (style : string)
  : Result (ContentState * nat) :=
  let '(accContent, applied) := acc in
  match getBlockForKey content (getStartKey selection) with
  | None => Throw (TypeError "block is undefined")
  | Some block =>
      let applied' :=
        if needToChange block selection styles then S applied else applied in
      let* accContent' := applyInlineStyle accContent selection style in
      Ok (accContent', applied')
  end.

(** [styles.reduce((accContent, style) => ..., content)] *)
Definition applyInlineStyles (content : ContentState) (selection : SelectionState)
    (styles : list string) (changesApplied : nat) : Result (ContentState * nat) :=
  reduce (styleReducer content selection styles) styles (content, changesApplied).

Definition resetStateToUnstyled (editorState : EditorState) : EditorState :=
  setInlineStyleOverride editorState [].

(** The reducer of [applyChangesToState], [(newContent, change) => ...],
    with the counter. *)
Definition changeReducer (acc : ContentState * nat) (change : StyleChange)
  : Result (ContentState * nat) :=
  let '(newContent, applied) := acc in
  let* selection := limitSelection (createSelectionForChange change)
                      (getBlockForKey newContent (blockKey change)) in
  applyInlineStyles newContent selection (change_styles change) applied.

(** The fold of [applyChangesToState]:
    [changes.reduce((newContent, change) => ..., state.getCurrentContent())],
    together with the value of [changesApplied] when it ends. *)
Definition reduceChanges (changes : list StyleChange) (content : ContentState)
  : Result (ContentState * nat) :=
  reduce changeReducer changes (content, O).

(** The declared result is [void | EditorState]: [None] stands for
    [undefined]. *)
Definition applyChangesToState (changes : list StyleChange) (state : EditorState)
  : Result (option EditorState) :=
  let* (content, changesApplied) := reduceChanges changes (getCurrentContent state) in
  let maybeTheNewState :=
    resetStateToUnstyled
      (acceptSelection (push state content (Some "apply-inline-styles"))
         (getSelection state)) in
  Ok (Some (if Nat.eqb changesApplied 0 then state else maybeTheNewState)).

(** [decorators.reduce((changes, decorator) => changes.concat(...), [])] *)
Definition collectChanges (decorators : list InlineStyleDecorator)
    (editorState : EditorState) : Result (list StyleChange) :=
  reduce
    (fun changes decorator =>
       let* changesInDecorator := getChangesToApplyForState decorator editorState in
       Ok (changes ++ changesInDecorator))
    decorators [].

Definition syncExecuteStrategies (decorators : list InlineStyleDecorator)
    (getEditorState : unit -> EditorState) : Result (option EditorState) :=
  let editorState := getEditorState tt in
  let* changesToApply := collectChanges decorators editorState in
  let afterChanges := applyChangesToState changesToApply (getEditorState tt) in
  afterChanges.

(** JavaScript's [a || b] on a value that is an editor state or
    [undefined]. *)
Definition or_else (a : option EditorState) (b : EditorState) : EditorState :=
  match a with
  | Some s => s
  | None => b
  end.

(** *** The host and its timers *)

(** [callbacks.getEditorState]: the host's own getter, or the closure
    [() => state] the plugin puts in its place. *)
Inductive Getter : Type :=
| HostGetter
| ConstGetter (state : EditorState).

(** The continuation handed to the guard; both hooks pass
    [state => executeStrategies(decorators, {...callbacks, getEditorState: () => state})]. *)
Inductive Afterwards : Type :=
| ThenExecute (decorators : list InlineStyleDecorator).

(** The callbacks waiting in [setTimeout]. *)
Inductive Timer : Type :=
| StripTimer (getEditorState : Getter) (afterwards : Afterwards)
| ExecuteTimer (decorators : list InlineStyleDecorator) (getEditorState : Getter).

Record Host : Type := {
  editorState : EditorState;
  timers : list Timer
}.

Definition callGetter (g : Getter) (h : Host) (_ : unit) : EditorState :=
  match g with
  | HostGetter => editorState h
  | ConstGetter state => state
  end.

Definition setEditorState (h : Host) (s : EditorState) : Host :=
  {| editorState := s; timers := timers h |}.

Definition setTimeout (h : Host) (t : Timer) : Host :=
  {| editorState := editorState h; timers := timers h ++ [t] |}.

Definition executeStrategies (decorators : list InlineStyleDecorator) (g : Getter)
    (h : Host) : Host :=
  setTimeout h (ExecuteTimer decorators g).

Definition callAfterwards (afterwards : Afterwards) (state : EditorState) (h : Host) : Host :=
  match afterwards with
  | ThenExecute decorators => executeStrategies decorators (ConstGetter state) h
  end.

(** The reducer of [stripStyles], [(contentState, block) => ...]. *)
Definition stripReducer (contentState : ContentState) (block : ContentBlock)
  : Result ContentState :=
  let allBlock :=
    set_focusOffset (set_anchorOffset (createEmpty (getKey block)) 0)
      (getLength block) in
  replaceText contentState allBlock (getText block) [].

(** The content [stripStyles] builds:
    [currentContent.getBlockMap().reduce((contentState, block) => ..., currentContent)]. *)
Definition strippedContent (currentContent : ContentState) : Result ContentState :=
  reduce stripReducer (getBlockMap currentContent) currentContent.

(** The state [stripStyles] hands to [afterwards]. *)
Definition strippedState (state : EditorState) : Result EditorState :=
  let* newContent := strippedContent (getCurrentContent state) in
  Ok (acceptSelection (push state newContent None) (getSelection state)).

Definition stripStyles (g : Getter) (afterwards : Afterwards) (h : Host) : Result Host :=
  let state := callGetter g h tt in
  let* newState := strippedState state in
  Ok (callAfterwards afterwards newState h).

(** The guard answers [true] or nothing ([undefined], here [false]). *)
Definition checkIfWeNeedToStripStyles (g : Getter) (afterwards : Afterwards) (h : Host)
  : Result (Host * bool) :=
  let currentState := callGetter g h tt in
  let selectedState := forceSelection currentState (getSelection currentState) in
  let* currentInlineStyle := getCurrentInlineStyle selectedState in
  if (0 <? length currentInlineStyle)%nat
  then Ok (setTimeout h (StripTimer g afterwards), true)
  else Ok (h, false).

(** The object the plugin exports. *)

Definition onChange (decorators : list InlineStyleDecorator) (state : EditorState)
  : Result EditorState :=
  let* result := syncExecuteStrategies decorators (fun _ => state) in
  let newState := or_else result state in
  Ok (setInlineStyleOverride newState []).

Definition handleKeyCommand (decorators : list InlineStyleDecorator) (command : string)
    (h : Host) : Result Host :=
  if decide (command = "backspace") then
    let* (h', _) := checkIfWeNeedToStripStyles HostGetter (ThenExecute decorators) h in
    Ok h'
  else Ok h.

Definition handleReturn (decorators : list InlineStyleDecorator) (h : Host) : Result Host :=
  let* (h', _) := checkIfWeNeedToStripStyles HostGetter (ThenExecute decorators) h in
  Ok h'.

(** Running one timer callback.  An exception leaves the callback and
    surfaces in the host's event loop; the host is as the callback left
    it. *)
Definition runTimer (t : Timer) (h : Host) : Host * option error :=
  match t with
  | StripTimer g afterwards =>
      match stripStyles g afterwards h with
      | Throw e => (h, Some e)
      | Ok h' => (h', None)
      end
  | ExecuteTimer decorators g =>
      match syncExecuteStrategies decorators (callGetter g h) with
      | Throw e => (h, Some e)
      | Ok result => (setEditorState h (or_else result (callGetter g h tt)), None)
      end
  end.

(** The event loop, for at most [turns] turns: the oldest timer is
    taken off the queue and run.  The log lists the timers that ran,
    each with the exception that surfaced from it, if any. *)
Fixpoint runTimers (turns : nat) (h : Host) : Host * list (Timer * option error) :=
  match turns with
  | O => (h, [])
  | S turns' =>
      match timers h with
      | [] => (h, [])
      | t :: rest =>
          let '(h', e) := runTimer t {| editorState := editorState h; timers := rest |} in
          let '(h'', log) := runTimers turns' h' in
          (h'', (t, e) :: log)
      end
  end.

(** * Specification-level definitions *)

(** Documents the plugin can receive: the block map has one entry per
    key, and every block has one character record per character of
    its text. *)
Definition wf_block (b : ContentBlock) : Prop :=
  length (getCharacterList b) = String.length (getText b).

Definition wf_blocks (blocks : list ContentBlock) : Prop :=
  NoDup (map getKey blocks) /\ Forall wf_block blocks.

Definition wf_content (content : ContentState) : Prop :=
  wf_blocks (getBlockMap content).

(** Position [i] lies in the range from [a] up to, not including, [f]. *)
Definition inRange (a f : Z) (i : nat) : bool :=
  (a <=? Z.of_nat i) && (Z.of_nat i <? f).

(** The characters of a block with [g] applied to those in the range. *)
Definition styleRange (g : CharacterMetadata -> CharacterMetadata) (a f : Z)
    (chars : list CharacterMetadata) : list CharacterMetadata :=
  imap (fun i ch => if inRange a f i then g ch else ch) chars.

(** [g] on the characters of the block under [key] in the range. *)
Definition styleBlock (key : string) (g : CharacterMetadata -> CharacterMetadata)
    (a f : Z) (x : ContentBlock) : ContentBlock :=
  if decide (getKey x = key)
  then set_characterList x (styleRange g a f (getCharacterList x))
  else x.

(** All the styles of a change added to one character, in array order. *)
Definition applyStyles (styles : list string) (ch : CharacterMetadata) : CharacterMetadata :=
  fold_left applyStyle styles ch.

(** The offsets of a change after [limitSelection]. *)
Definition clampedStart (change : StyleChange) : Z := Z.max (start change) 0.
Definition clampedEnd (change : StyleChange) (block : ContentBlock) : Z :=
  Z.min (getLength block) (end_ change).

Definition limited (change : StyleChange) (block : ContentBlock) : SelectionState :=
  set_focusOffset
    (set_anchorOffset (createSelectionForChange change) (clampedStart change))
    (clampedEnd change block).

(** What one change does to one block. *)
Definition applyChangeToBlock (change : StyleChange) (block : ContentBlock) : ContentBlock :=
  if decide (getKey block = blockKey change)
  then set_characterList block
         (styleRange (applyStyles (change_styles change))
            (clampedStart change) (clampedEnd change block) (getCharacterList block))
  else block.

(** What one change adds to the counter on the blocks it meets. *)
Definition incrementsOf (change : StyleChange) (blocks : list ContentBlock) : nat :=
  match lookupBlock blocks (blockKey change) with
  | Some block =>
      if needToChange block (limited change block) (change_styles change)
      then length (change_styles change) else O
  | None => O
  end.

(** The reconciler on the block list alone: the blocks after all the
    changes, and the counter. *)
Fixpoint reconcileBlocks (changes : list StyleChange) (blocks : list ContentBlock)
    (applied : nat) : list ContentBlock * nat :=
  match changes with
  | [] => (blocks, applied)
  | change :: rest =>
      reconcileBlocks rest (map (applyChangeToBlock change) blocks)
        (applied + incrementsOf change blocks)%nat
  end.

(** The changes one rule contributes on a list of blocks, when none
    of its calls throws, and the changes of a rule set. *)
Definition changesOf (decorator : InlineStyleDecorator) (blocks : list ContentBlock)
  : list StyleChange :=
  flat_map (fun block => map (pushed decorator (getKey block))
                           (reported (strategy decorator block))) blocks.

Definition allChanges (decorators : list InlineStyleDecorator) (blocks : list ContentBlock)
  : list StyleChange :=
  flat_map (fun decorator => changesOf decorator blocks) decorators.

(** No call of the rule's strategy on these blocks throws. *)
Definition quiet (decorator : InlineStyleDecorator) (blocks : list ContentBlock) : Prop :=
  Forall (fun block => raised (strategy decorator block) = None) blocks.

(** The value of [changesApplied] at the end of a pass on [state]. *)
Definition changesAppliedBy (decorators : list InlineStyleDecorator) (state : EditorState)
  : Result nat :=
  let* changes := collectChanges decorators state in
  let* (_, changesApplied) := reduceChanges changes (getCurrentContent state) in
  Ok changesApplied.

(** A block after the strip: the same key and text, every character
    without style. *)
Definition stripBlock (block : ContentBlock) : ContentBlock :=
  {| getKey := getKey block;
     getText := getText block;
     getCharacterList :=
       replicate (String.length (getText block)) {| getStyle := []; getEntity := None |} |}.

(** One block after a list of changes. *)
Definition blockAfter (changes : list StyleChange) (block : ContentBlock) : ContentBlock :=
  fold_left (fun x change => applyChangeToBlock change x) changes block.

(** Position [i] of [block] is one the change writes to. *)
Definition covers (change : StyleChange) (block : ContentBlock) (i : nat) : Prop :=
  getKey block = blockKey change /\
  clampedStart change <= Z.of_nat i < clampedEnd change block.

(** A list of style names added to a style set, in order. *)
Definition addAll (styles : list string) (o : list string) : list string :=
  fold_left (fun acc s => Immutable.OrderedSet_add s acc) styles o.

(** The strategy looks at the key and the text of a block only, not
    at the styles the block carries. *)
Definition reads_text_only (decorator : InlineStyleDecorator) : Prop :=
  forall b b', getKey b = getKey b' -> getText b = getText b' ->
               strategy decorator b = strategy decorator b'.

(** The comparison as §4.2, step 2b, of the specification words it:
    some character of the selection does not carry exactly the one
    style being applied, as its sole style. *)
Definition spec_needs_style (chars : list CharacterMetadata) (style : string) : bool :=
  existsb (fun ch => negb (bool_decide (getStyle ch = [style]))) chars.

(** What a change adds to the counter under that wording: one for
    each of its style names whose comparison finds a difference. *)
Definition spec_increments (chars : list CharacterMetadata) (styles : list string) : nat :=
  length (List.filter (spec_needs_style chars) styles).

(** A result of the reconciler with [n] added to its counter. *)
Definition counted (n : nat) (r : Result (ContentState * nat)) : Result (ContentState * nat) :=
  let* (content, m) := r in Ok (content, (n + m)%nat).

(** ** Sample documents and rules *)

Module Examples.

Definition plain : CharacterMetadata := {| getStyle := []; getEntity := None |}.

Definition styled (l : list string) : CharacterMetadata :=
  {| getStyle := l; getEntity := None |}.

(** A block of unstyled text. *)
Definition block (key text : string) : ContentBlock :=
  {| getKey := key; getText := text;
     getCharacterList := replicate (String.length text) plain |}.

Definition document (blocks : list ContentBlock) : ContentState :=
  {| getBlockMap := blocks;
     getSelectionBefore := createEmpty "a";
     getSelectionAfter := createEmpty "a" |}.

(** An editor state with the caret at the start of block "a". *)
Definition editor (blocks : list ContentBlock) (override : option (list string))
  : EditorState :=
  {| getCurrentContent := document blocks;
     getSelection := createEmpty "a";
     mustForceSelection := false;
     getInlineStyleOverride := override;
     getUndoStack := [];
     getLastChangeType := None |}.

(** A strategy that reports fixed ranges on the blocks with a given
    text and nothing elsewhere, as a regular expression search would. *)
Definition onText (text : string) (ranges : list (Z * Z)) (b : ContentBlock) : Run :=
  {| reported := if decide (getText b = text) then ranges else [];
     raised := None |}.

(** A strategy that throws on every block. *)
Definition failing (b : ContentBlock) : Run :=
  {| reported := []; raised := Some (Thrown "boom") |}.

Definition readme : string := "*bold* and ~under~".

Definition boldRule : InlineStyleDecorator :=
  {| strategy := onText readme [(0, 6)]; styles := ["BOLD"] |}.
Definition underlineRule : InlineStyleDecorator :=
  {| strategy := onText readme [(11, 18)]; styles := ["UNDERLINE"] |}.
Definition italicRule : InlineStyleDecorator :=
  {| strategy := onText readme [(3, 9)]; styles := ["ITALIC"] |}.
Definition wildRule : InlineStyleDecorator :=
  {| strategy := onText "abc" [(-2, 2); (1, 9); (5, 7)]; styles := ["BOLD"] |}.
Definition failingRule : InlineStyleDecorator :=
  {| strategy := failing; styles := ["BOLD"] |}.

(** The block "*bold*" with every character in bold. *)
Definition boldBlock : ContentBlock :=
  {| getKey := "a"; getText := "*bold*";
     getCharacterList := replicate 6 (styled ["BOLD"]) |}.

Definition boldState : EditorState := editor [boldBlock] None.
Definition starRule : InlineStyleDecorator :=
  {| strategy := onText "*bold*" [(0, 6)]; styles := ["BOLD"] |}.

(** The block "ab" in bold italics, and a change asking for bold
    italics on it. *)
Definition boldItalicBlock : ContentBlock :=
  {| getKey := "a"; getText := "ab";
     getCharacterList := replicate 2 (styled ["BOLD"; "ITALIC"]) |}.
Definition boldItalicChange : StyleChange :=
  {| start := 0; end_ := 2; change_styles := ["BOLD"; "ITALIC"]; blockKey := "a" |}.

Definition boldChange : StyleChange :=
  {| start := 0; end_ := 6; change_styles := ["BOLD"]; blockKey := "a" |}.
Definition underlineChange : StyleChange :=
  {| start := 11; end_ := 18; change_styles := ["UNDERLINE"]; blockKey := "a" |}.
Definition readmeState : EditorState := editor [block "a" readme] None.
Definition abcState : EditorState := editor [block "a" "abc"] None.

(** Rules and a document outside the conditions under which a second
    pass is known to count nothing. *)
Definition backwardRule : InlineStyleDecorator :=
  {| strategy := onText "abc" [(0, -1)]; styles := ["BOLD"] |}.
Definition doubledRule : InlineStyleDecorator :=
  {| strategy := onText "abc" [(0, 3)]; styles := ["BOLD"; "BOLD"] |}.
Definition abcRule : InlineStyleDecorator :=
  {| strategy := onText "abc" [(0, 3)]; styles := ["BOLD"] |}.
Definition italicAbcState : EditorState :=
  editor [{| getKey := "a"; getText := "abc";
             getCharacterList := replicate 3 (styled ["ITALIC"]) |}] None.

Definition host (state : EditorState) : Host :=
  {| editorState := state; timers := [] |}.

End Examples.

(** * Properties *)

(** ** Ranges of characters *)

Ltac zcases :=
  repeat match goal with
    | |- context [Z.leb ?a ?b] => destruct (Z.leb_spec a b)
    | |- context [Z.ltb ?a ?b] => destruct (Z.ltb_spec a b)
    | H : context [Z.leb ?a ?b] |- _ => destruct (Z.leb_spec a b)
    | H : context [Z.ltb ?a ?b] |- _ => destruct (Z.ltb_spec a b)
    end; simpl in *; try done; try lia.

Lemma lookup_styleRange g a f chars i :
  styleRange g a f chars !! i = (fun ch => if inRange a f i then g ch else ch) <$> chars !! i.
Proof. unfold styleRange. by rewrite list_lookup_imap. Qed.

Lemma length_styleRange g a f chars : length (styleRange g a f chars) = length chars.
Proof. unfold styleRange. by rewrite length_imap. Qed.

Lemma styleRange_ext g g' a f a' f' chars :
  (forall i ch, chars !! i = Some ch ->
     (if inRange a f i then g ch else ch) = (if inRange a' f' i then g' ch else ch)) ->
  styleRange g a f chars = styleRange g' a' f' chars.
Proof.
  intros Hext. apply list_eq. intros i. rewrite !lookup_styleRange.
  destruct (chars !! i) as [ch|] eqn:Hi; simpl; [|done]. f_equal. by apply Hext.
Qed.

Lemma styleRange_empty g a f chars : f <= a -> styleRange g a f chars = chars.
Proof.
  intros Hle. apply list_eq. intros i. rewrite lookup_styleRange.
  destruct (chars !! i) as [ch|]; simpl; [|done].
  unfold inRange. zcases.
Qed.

Lemma styleRange_compose g g' a f chars :
  styleRange g' a f (styleRange g a f chars) = styleRange (fun ch => g' (g ch)) a f chars.
Proof.
  apply list_eq. intros i. rewrite !lookup_styleRange.
  destruct (chars !! i) as [ch|]; simpl; [|done]. by destruct (inRange a f i).
Qed.

Lemma styleLoop_spec style steps a chars :
  0 <= a -> a + Z.of_nat steps <= Z.of_nat (length chars) ->
  styleLoop style steps a chars =
    Ok (styleRange (fun ch => applyStyle ch style) a (a + Z.of_nat steps) chars).
Proof.
  revert a chars. induction steps as [|steps IH]; intros a chars Ha Hlen.
  - simpl. by rewrite styleRange_empty by lia.
  - cbn [styleLoop]. unfold Immutable.get, Immutable.set.
    destruct (Z.ltb_spec a 0) as [|_]; [lia|].
    destruct (Z.leb_spec 0 a) as [_|]; [|lia].
    destruct (Z.ltb_spec a (Z.of_nat (length chars))) as [Hlt|]; [|lia].
    simpl.
    destruct (chars !! Z.to_nat a) as [current|] eqn:Hcur.
    2:{ apply lookup_ge_None in Hcur. lia. }
    rewrite IH by (rewrite ?length_insert; lia).
    f_equal. apply list_eq. intros i. rewrite !lookup_styleRange.
    destruct (decide (i = Z.to_nat a)) as [->|Hne].
    + rewrite list_lookup_insert_eq by lia. rewrite Hcur. simpl.
      unfold inRange. zcases.
    + rewrite list_lookup_insert_ne by done.
      destruct (chars !! i) as [ch|]; simpl; [|done].
      unfold inRange. zcases.
Qed.

(** The loop between two offsets: it covers the positions from the
    start up to the end, none when the end is not after the start. *)
Lemma styleLoop_range style a f chars :
  0 <= a -> f <= Z.of_nat (length chars) ->
  styleLoop style (Z.to_nat (f - a)) a chars =
    Ok (styleRange (fun ch => applyStyle ch style) a f chars).
Proof.
  intros Ha Hf. destruct (Z.le_gt_cases f a) as [Hle|Hlt].
  - replace (Z.to_nat (f - a)) with O by lia. simpl.
    by rewrite styleRange_empty.
  - rewrite styleLoop_spec by lia. do 2 f_equal. lia.
Qed.

(** ** Blocks under their keys *)

Lemma lookupBlock_key blocks key b : lookupBlock blocks key = Some b -> getKey b = key.
Proof.
  induction blocks as [|x rest IH]; simpl; [done|].
  destruct (decide (getKey x = key)); [by intros [= <-]|done].
Qed.

Lemma lookupBlock_elem blocks key b : lookupBlock blocks key = Some b -> b ∈ blocks.
Proof.
  induction blocks as [|x rest IH]; simpl; [done|].
  destruct (decide (getKey x = key)).
  - intros [= <-]. left.
  - intros H. right. auto.
Qed.

Lemma lookupBlock_is_Some blocks key :
  key ∈ map getKey blocks <-> is_Some (lookupBlock blocks key).
Proof.
  induction blocks as [|x rest IH]; simpl.
  - split; [by intros ?%elem_of_nil|by intros [? ?]].
  - destruct (decide (getKey x = key)) as [<-|Hne].
    + split; [eauto|left].
    + rewrite <- IH. split.
      * intros [Heq|Hin]%elem_of_cons; [congruence|done].
      * intros Hin. apply elem_of_cons. by right.
Qed.

Lemma lookupBlock_NoDup blocks b :
  NoDup (map getKey blocks) -> b ∈ blocks -> lookupBlock blocks (getKey b) = Some b.
Proof.
  induction blocks as [|x rest IH]; simpl; intros Hnd Hin.
  - by apply elem_of_nil in Hin.
  - apply NoDup_cons in Hnd as [Hx Hnd].
    apply elem_of_cons in Hin as [->|Hin].
    + by rewrite decide_True.
    + rewrite decide_False; [by apply IH|].
      intros Heq. apply Hx. rewrite Heq. by apply list_elem_of_fmap_2.
Qed.

Lemma lookupBlock_map g blocks key :
  (forall x, getKey (g x) = getKey x) ->
  lookupBlock (map g blocks) key = g <$> lookupBlock blocks key.
Proof.
  intros Hg. induction blocks as [|x rest IH]; simpl; [done|].
  rewrite Hg. by destruct (decide (getKey x = key)).
Qed.

Lemma setBlock_map blocks key b nb :
  NoDup (map getKey blocks) -> lookupBlock blocks key = Some b ->
  setBlock blocks key nb = map (fun x => if decide (getKey x = key) then nb else x) blocks.
Proof.
  induction blocks as [|x rest IH]; simpl; intros Hnd Hb; [done|].
  apply NoDup_cons in Hnd as [Hx Hnd].
  destruct (decide (getKey x = key)) as [Heq|Hne].
  - f_equal. symmetry. rewrite <- (map_id rest) at 2. apply map_ext_in.
    intros y Hy. rewrite decide_False; [done|].
    intros Hk. apply Hx. rewrite Heq, <- Hk. apply list_elem_of_fmap_2.
    by apply list_elem_of_In.
  - f_equal. by apply IH.
Qed.

Lemma map_getKey_map g blocks :
  (forall x, getKey (g x) = getKey x) -> map getKey (map g blocks) = map getKey blocks.
Proof. intros Hg. rewrite map_map. apply map_ext. auto. Qed.

(** ** The style modifier and the reconciler, block by block *)

Lemma styleBlock_key key g a f x : getKey (styleBlock key g a f x) = getKey x.
Proof. unfold styleBlock. by destruct (decide _). Qed.

Lemma styleBlock_text key g a f x : getText (styleBlock key g a f x) = getText x.
Proof. unfold styleBlock. by destruct (decide _). Qed.

Lemma styleBlock_length key g a f x :
  length (getCharacterList (styleBlock key g a f x)) = length (getCharacterList x).
Proof. unfold styleBlock. destruct (decide _); simpl; [apply length_styleRange|done]. Qed.

Lemma styleBlock_id key a f x : styleBlock key (fun ch => ch) a f x = x.
Proof.
  unfold styleBlock. destruct (decide _); [|done].
  destruct x as [k t chars]. unfold set_characterList. simpl. f_equal.
  apply list_eq. intros i. rewrite lookup_styleRange.
  destruct (chars !! i); simpl; [|done]. by destruct (inRange a f i).
Qed.

Lemma styleBlock_compose key g g' a f x :
  styleBlock key g' a f (styleBlock key g a f x) =
  styleBlock key (fun ch => g' (g ch)) a f x.
Proof.
  unfold styleBlock. destruct (decide (getKey x = key)) as [Hk|Hk]; simpl.
  - rewrite decide_True by done. unfold set_characterList. simpl.
    by rewrite styleRange_compose.
  - by rewrite decide_False.
Qed.

Lemma applyInlineStyle_spec acc selection style b :
  NoDup (map getKey (getBlockMap acc)) ->
  getBlockForKey acc (getStartKey selection) = Some b ->
  0 <= getStartOffset selection ->
  getEndOffset selection <= Z.of_nat (length (getCharacterList b)) ->
  exists acc',
    applyInlineStyle acc selection style = Ok acc' /\
    getBlockMap acc' =
      map (styleBlock (getStartKey selection) (fun ch => applyStyle ch style)
             (getStartOffset selection) (getEndOffset selection))
        (getBlockMap acc).
Proof.
  intros Hnd Hb Ha Hf. unfold applyInlineStyle. rewrite Hb.
  rewrite styleLoop_range by done. simpl. eexists. split; [done|]. simpl.
  unfold getBlockForKey in Hb. rewrite (setBlock_map _ _ b) by done.
  apply map_ext_in. intros x Hx%list_elem_of_In. unfold styleBlock.
  destruct (decide (getKey x = getStartKey selection)) as [Hk|Hk]; [|done].
  pose proof (lookupBlock_NoDup _ _ Hnd Hx) as Hlx. rewrite Hk, Hb in Hlx.
  by injection Hlx as ->.
Qed.

Lemma reduce_styleReducer content selection styles0 b :
  NoDup (map getKey (getBlockMap content)) ->
  getBlockForKey content (getStartKey selection) = Some b ->
  0 <= getStartOffset selection ->
  getEndOffset selection <= Z.of_nat (length (getCharacterList b)) ->
  forall styles acc applied g,
    getBlockMap acc =
      map (styleBlock (getStartKey selection) g
             (getStartOffset selection) (getEndOffset selection)) (getBlockMap content) ->
    exists acc',
      reduce (styleReducer content selection styles0) styles (acc, applied) =
        Ok (acc', (applied +
                     if needToChange b selection styles0 then length styles else O)%nat) /\
      getBlockMap acc' =
        map (styleBlock (getStartKey selection) (fun ch => applyStyles styles (g ch))
               (getStartOffset selection) (getEndOffset selection)) (getBlockMap content).
Proof.
  intros Hnd Hb Ha Hf styles.
  induction styles as [|style rest IH]; intros acc applied g Hacc.
  - simpl. exists acc. split; [|done]. f_equal. f_equal.
    destruct (needToChange _ _ _); lia.
  - cbn [reduce]. unfold styleReducer at 1. rewrite Hb.
    destruct (applyInlineStyle_spec acc selection style
                (styleBlock (getStartKey selection) g (getStartOffset selection)
                   (getEndOffset selection) b)) as (acc1 & Hrun & Hmap).
    + rewrite Hacc. by rewrite map_getKey_map by (intros; apply styleBlock_key).
    + unfold getBlockForKey in *. rewrite Hacc.
      rewrite lookupBlock_map by (intros; apply styleBlock_key). by rewrite Hb.
    + done.
    + by rewrite styleBlock_length.
    + rewrite Hrun. cbn [bind].
      destruct (IH acc1 (if needToChange b selection styles0 then S applied else applied)
                  (fun ch => applyStyle (g ch) style)) as (acc' & Hred & Hfinal).
      * rewrite Hmap, Hacc, map_map. apply map_ext. intros x.
        apply styleBlock_compose.
      * exists acc'. split; [|done]. rewrite Hred. f_equal. f_equal.
        simpl. destruct (needToChange _ _ _); lia.
Qed.

Lemma applyInlineStyles_spec content selection styles applied b :
  NoDup (map getKey (getBlockMap content)) ->
  getBlockForKey content (getStartKey selection) = Some b ->
  0 <= getStartOffset selection ->
  getEndOffset selection <= Z.of_nat (length (getCharacterList b)) ->
  exists content',
    applyInlineStyles content selection styles applied =
      Ok (content', (applied +
                       if needToChange b selection styles then length styles else O)%nat) /\
    getBlockMap content' =
      map (styleBlock (getStartKey selection) (applyStyles styles)
             (getStartOffset selection) (getEndOffset selection)) (getBlockMap content).
Proof.
  intros Hnd Hb Ha Hf. unfold applyInlineStyles.
  destruct (reduce_styleReducer content selection styles b Hnd Hb Ha Hf
              styles content applied (fun ch => ch)) as (c' & Hred & Hmap).
  - transitivity (map (fun x => x) (getBlockMap content)); [by rewrite map_id|].
    apply map_ext. intros x. symmetry. apply styleBlock_id.
  - exists c'. split; [done|]. rewrite Hmap. apply map_ext. intros x.
    by unfold applyStyles.
Qed.

Lemma applyChangeToBlock_key change x : getKey (applyChangeToBlock change x) = getKey x.
Proof. unfold applyChangeToBlock. by destruct (decide _). Qed.

Lemma applyChangeToBlock_text change x : getText (applyChangeToBlock change x) = getText x.
Proof. unfold applyChangeToBlock. by destruct (decide _). Qed.

Lemma applyChangeToBlock_length change x :
  length (getCharacterList (applyChangeToBlock change x)) = length (getCharacterList x).
Proof.
  unfold applyChangeToBlock. destruct (decide _); simpl; [apply length_styleRange|done].
Qed.

Lemma applyChangeToBlock_getLength change x :
  getLength (applyChangeToBlock change x) = getLength x.
Proof. unfold getLength. by rewrite applyChangeToBlock_text. Qed.

Lemma wf_blocks_applyChange change blocks :
  wf_blocks blocks -> wf_blocks (map (applyChangeToBlock change) blocks).
Proof.
  intros [Hnd Hwf]. split.
  - by rewrite map_getKey_map by apply applyChangeToBlock_key.
  - apply Forall_map. eapply Forall_impl; [exact Hwf|].
    intros x Hx. unfold wf_block in *. simpl.
    by rewrite applyChangeToBlock_length, applyChangeToBlock_text.
Qed.

Lemma wf_block_length b : wf_block b -> Z.of_nat (length (getCharacterList b)) = getLength b.
Proof. unfold wf_block, getLength. by intros ->. Qed.

Lemma limitSelection_limited change b :
  limitSelection (createSelectionForChange change) (Some b) = Ok (limited change b).
Proof. reflexivity. Qed.

Lemma changeReducer_spec content change applied b :
  wf_content content ->
  getBlockForKey content (blockKey change) = Some b ->
  exists content',
    changeReducer (content, applied) change =
      Ok (content', (applied + incrementsOf change (getBlockMap content))%nat) /\
    getBlockMap content' = map (applyChangeToBlock change) (getBlockMap content).
Proof.
  intros [Hnd Hwf] Hb. unfold changeReducer. rewrite Hb, limitSelection_limited.
  cbn [bind].
  assert (Hwb : wf_block b).
  { eapply Forall_forall; [exact Hwf|]. eapply lookupBlock_elem, Hb. }
  destruct (applyInlineStyles_spec content (limited change b) (change_styles change)
              applied b Hnd Hb) as (content' & Hrun & Hmap).
  - cbn. unfold clampedStart. lia.
  - cbn. rewrite (wf_block_length _ Hwb). unfold clampedEnd. lia.
  - exists content'. split.
    + rewrite Hrun. unfold incrementsOf. unfold getBlockForKey in Hb. by rewrite Hb.
    + rewrite Hmap. apply map_ext_in. intros x Hx%list_elem_of_In.
      unfold styleBlock, applyChangeToBlock. cbn.
      destruct (decide (getKey x = blockKey change)) as [Hk|Hk]; [|done].
      pose proof (lookupBlock_NoDup _ _ Hnd Hx) as Hlx.
      unfold getBlockForKey in Hb. rewrite Hk, Hb in Hlx. by injection Hlx as ->.
Qed.

(** The fold of [applyChangesToState] never raises on a document that
    has the blocks of the changes, and computes what [reconcileBlocks]
    computes. *)
Lemma reduce_changeReducer changes :
  forall content applied,
    wf_content content ->
    Forall (fun change => blockKey change ∈ map getKey (getBlockMap content)) changes ->
    exists content',
      reduce changeReducer changes (content, applied) =
        Ok (content', (reconcileBlocks changes (getBlockMap content) applied).2) /\
      getBlockMap content' = (reconcileBlocks changes (getBlockMap content) applied).1.
Proof.
  induction changes as [|change rest IH]; intros content applied Hwf Hkeys.
  - simpl. by exists content.
  - apply Forall_cons in Hkeys as [Hk Hkeys]. cbn [reduce reconcileBlocks].
    apply lookupBlock_is_Some in Hk as [b Hb].
    destruct (changeReducer_spec content change applied b Hwf Hb)
      as (content1 & Hrun & Hmap).
    rewrite Hrun. cbn [bind].
    destruct (IH content1 (applied + incrementsOf change (getBlockMap content))%nat)
      as (content' & Hred & Hfinal).
    + unfold wf_content. rewrite Hmap. by apply wf_blocks_applyChange.
    + rewrite Hmap. rewrite map_getKey_map by apply applyChangeToBlock_key. done.
    + exists content'. rewrite Hmap in Hred, Hfinal. done.
Qed.

Lemma reduceChanges_spec changes content :
  wf_content content ->
  Forall (fun change => blockKey change ∈ map getKey (getBlockMap content)) changes ->
  exists content',
    reduceChanges changes content =
      Ok (content', (reconcileBlocks changes (getBlockMap content) O).2) /\
    getBlockMap content' = (reconcileBlocks changes (getBlockMap content) O).1.
Proof. intros. by apply reduce_changeReducer. Qed.

(** ** Collecting the changes *)

Lemma forEachBlock_quiet decorator blocks changes :
  quiet decorator blocks ->
  forEachBlock decorator blocks changes = Ok (changes ++ changesOf decorator blocks).
Proof.
  revert changes. induction blocks as [|b rest IH]; intros changes Hq.
  - simpl. by rewrite app_nil_r.
  - apply Forall_cons in Hq as [Hb Hq]. cbn [forEachBlock]. rewrite Hb.
    rewrite IH by done. unfold changesOf. simpl. by rewrite app_assoc.
Qed.

(** The first call that throws ends the loop over the blocks. *)
Lemma forEachBlock_raise decorator above b below changes e :
  quiet decorator above ->
  raised (strategy decorator b) = Some e ->
  forEachBlock decorator (above ++ b :: below) changes = Throw e.
Proof.
  revert changes. induction above as [|x above IH]; intros changes Hq Hb.
  - simpl. by rewrite Hb.
  - apply Forall_cons in Hq as [Hx Hq]. simpl. rewrite Hx. by apply IH.
Qed.

Lemma reduce_collect_quiet decorators state changes :
  Forall (fun d => quiet d (getBlockMap (getCurrentContent state))) decorators ->
  reduce
    (fun changes decorator =>
       let* changesInDecorator := getChangesToApplyForState decorator state in
       Ok (changes ++ changesInDecorator))
    decorators changes =
  Ok (changes ++ allChanges decorators (getBlockMap (getCurrentContent state))).
Proof.
  revert changes. induction decorators as [|d rest IH]; intros changes Hq.
  - simpl. by rewrite app_nil_r.
  - apply Forall_cons in Hq as [Hd Hq]. cbn [reduce].
    unfold getChangesToApplyForState at 1. rewrite forEachBlock_quiet by done.
    cbn [bind app]. rewrite IH by done. unfold allChanges. simpl.
    by rewrite app_assoc.
Qed.

Lemma collectChanges_quiet decorators state :
  Forall (fun d => quiet d (getBlockMap (getCurrentContent state))) decorators ->
  collectChanges decorators state =
    Ok (allChanges decorators (getBlockMap (getCurrentContent state))).
Proof. intros Hq. unfold collectChanges. by rewrite reduce_collect_quiet. Qed.

(** The first call that throws ends the collection: the rules after it
    are not consulted. *)
Lemma collectChanges_raise before d after state above b below e :
  getBlockMap (getCurrentContent state) = above ++ b :: below ->
  Forall (fun d' => quiet d' (getBlockMap (getCurrentContent state))) before ->
  quiet d above ->
  raised (strategy d b) = Some e ->
  collectChanges (before ++ d :: after) state = Throw e.
Proof.
  intros Hblocks Hbefore Habove Hb. unfold collectChanges.
  generalize (@nil StyleChange) as changes.
  induction before as [|x before IH]; intros changes.
  - cbn [app reduce]. unfold getChangesToApplyForState at 1. rewrite Hblocks.
    by rewrite (forEachBlock_raise _ _ _ _ _ e).
  - apply Forall_cons in Hbefore as [Hx Hbefore]. cbn [app reduce].
    unfold getChangesToApplyForState at 1. rewrite forEachBlock_quiet by done.
    cbn [bind]. by apply IH.
Qed.

(** Either every call returns, or the collection throws what one of
    the calls threw. *)
Lemma forEachBlock_cases decorator blocks changes :
  quiet decorator blocks \/
  exists b e, b ∈ blocks /\ raised (strategy decorator b) = Some e /\
              forEachBlock decorator blocks changes = Throw e.
Proof.
  revert changes. induction blocks as [|x rest IH]; intros changes.
  - left. constructor.
  - cbn [forEachBlock]. destruct (raised (strategy decorator x)) as [e|] eqn:Hx.
    + right. exists x, e. split; [left|done].
    + destruct (IH (changes ++ map (pushed decorator (getKey x))
                                 (reported (strategy decorator x))))
        as [Hq|(b & e & Hin & Hb & Hrun)].
      * left. by constructor.
      * right. exists b, e. split; [by right|done].
Qed.

Lemma collectChanges_cases decorators state :
  Forall (fun d => quiet d (getBlockMap (getCurrentContent state))) decorators \/
  exists d b e, d ∈ decorators /\ b ∈ getBlockMap (getCurrentContent state) /\
                raised (strategy d b) = Some e /\
                collectChanges decorators state = Throw e.
Proof.
  unfold collectChanges. generalize (@nil StyleChange) as changes.
  induction decorators as [|x rest IH]; intros changes.
  - left. constructor.
  - cbn [reduce]. unfold getChangesToApplyForState at 1.
    destruct (forEachBlock_cases x (getBlockMap (getCurrentContent state)) [])
      as [Hq|(b & e & Hin & Hb & Hrun)].
    + rewrite forEachBlock_quiet by done. cbn [bind].
      destruct (IH (changes ++ ([] ++ changesOf x (getBlockMap (getCurrentContent state)))))
        as [Hrest|(d & b & e & Hd & Hin & Hb & Hrun)].
      * left. by constructor.
      * right. exists d, b, e. split; [by right|done].
    + right. exists x, b, e. rewrite Hrun. split; [left|done].
Qed.

Lemma allChanges_keys decorators blocks :
  Forall (fun change => blockKey change ∈ map getKey blocks) (allChanges decorators blocks).
Proof.
  apply Forall_forall. intros change Hin.
  unfold allChanges in Hin. apply list_elem_of_In, in_flat_map in Hin as (d & _ & Hin).
  unfold changesOf in Hin. apply in_flat_map in Hin as (b & Hb & Hin).
  apply in_map_iff in Hin as (r & <- & _). simpl.
  apply list_elem_of_fmap_2. by apply list_elem_of_In.
Qed.

(** ** The driver when a strategy throws *)

(** C9.  If a strategy throws while the changes are collected, the
    exception of the first call that throws is the outcome of
    [syncExecuteStrategies] and of the hook [onChange] that called it:
    nothing catches it, the rules and blocks after the call are not
    consulted, and no call is made again. *)
Theorem matcher_exception_propagates before d after state above b below e :
  getBlockMap (getCurrentContent state) = above ++ b :: below ->
  Forall (fun d' => quiet d' (getBlockMap (getCurrentContent state))) before ->
  quiet d above ->
  raised (strategy d b) = Some e ->
  syncExecuteStrategies (before ++ d :: after) (fun _ => state) = Throw e /\
  onChange (before ++ d :: after) state = Throw e.
Proof.
  intros Hblocks Hbefore Habove Hb.
  assert (Hsync : syncExecuteStrategies (before ++ d :: after) (fun _ => state) = Throw e).
  { unfold syncExecuteStrategies.
    by rewrite (collectChanges_raise before d after state above b below e). }
  split; [done|]. unfold onChange. by rewrite Hsync.
Qed.

Lemma matcher_exception_propagates_witness :
  syncExecuteStrategies
    ([Examples.boldRule] ++ Examples.failingRule :: [Examples.underlineRule])
    (fun _ => Examples.readmeState) = Throw (Thrown "boom") /\
  onChange ([Examples.boldRule] ++ Examples.failingRule :: [Examples.underlineRule])
    Examples.readmeState = Throw (Thrown "boom").
Proof.
  apply (matcher_exception_propagates [Examples.boldRule] Examples.failingRule
           [Examples.underlineRule] Examples.readmeState
           [] (Examples.block "a" Examples.readme) [] (Thrown "boom")).
  - reflexivity.
  - repeat constructor.
  - constructor.
  - reflexivity.
Defined.

(** C10.  A pass in which some strategy throws changes nothing: the
    driver yields the exception and no editor state, and the timer
    callback of [executeStrategies] leaves the host, its editor state
    and its document as they were, [setEditorState] not being
    reached. *)
Theorem matcher_exception_leaves_state decorators g h d b e0 :
  d ∈ decorators ->
  b ∈ getBlockMap (getCurrentContent (callGetter g h tt)) ->
  raised (strategy d b) = Some e0 ->
  exists e,
    syncExecuteStrategies decorators (callGetter g h) = Throw e /\
    runTimer (ExecuteTimer decorators g) h = (h, Some e).
Proof.
  intros Hd Hb Hraise.
  destruct (collectChanges_cases decorators (callGetter g h tt))
    as [Hquiet|(d' & b' & e & _ & _ & _ & Hrun)].
  - exfalso. rewrite Forall_forall in Hquiet. specialize (Hquiet d Hd).
    unfold quiet in Hquiet. rewrite Forall_forall in Hquiet.
    specialize (Hquiet b Hb). congruence.
  - exists e.
    assert (Hsync : syncExecuteStrategies decorators (callGetter g h) = Throw e).
    { unfold syncExecuteStrategies. by rewrite Hrun. }
    split; [done|]. unfold runTimer. by rewrite Hsync.
Qed.

Lemma matcher_exception_leaves_state_witness :
  exists e,
    syncExecuteStrategies [Examples.boldRule; Examples.failingRule]
      (callGetter HostGetter (Examples.host Examples.readmeState)) = Throw e /\
    runTimer (ExecuteTimer [Examples.boldRule; Examples.failingRule] HostGetter)
      (Examples.host Examples.readmeState) =
      (Examples.host Examples.readmeState, Some e).
Proof.
  apply (matcher_exception_leaves_state [Examples.boldRule; Examples.failingRule]
           HostGetter (Examples.host Examples.readmeState)
           Examples.failingRule (Examples.block "a" Examples.readme) (Thrown "boom")).
  - right. left.
  - left.
  - reflexivity.
Defined.

(** ** The driver when nothing changed *)

(** C2, as the code has it.  When a pass ends with [changesApplied]
    at zero, the driver returns the editor state it was given, the
    very same value, and not [undefined]; no new version is made. *)
Theorem noop_returns_input_state decorators getEditorState changes content :
  collectChanges decorators (getEditorState tt) = Ok changes ->
  reduceChanges changes (getCurrentContent (getEditorState tt)) = Ok (content, O) ->
  syncExecuteStrategies decorators getEditorState = Ok (Some (getEditorState tt)).
Proof.
  intros Hcollect Hreduce. unfold syncExecuteStrategies. rewrite Hcollect. cbn [bind].
  unfold applyChangesToState. by rewrite Hreduce.
Qed.

Lemma noop_returns_input_state_witness :
  syncExecuteStrategies [Examples.boldRule] (fun _ => Examples.abcState) =
    Ok (Some Examples.abcState).
Proof.
  apply (noop_returns_input_state [Examples.boldRule] (fun _ => Examples.abcState)
           [] (getCurrentContent Examples.abcState)); reflexivity.
Defined.

(** C2 as stated fails: no strategy reports a range on the block
    "abc", the pass ends with [changesApplied] at zero, and the driver
    returns a value, not [undefined]. *)
Lemma noop_returns_nothing_fails :
  changesAppliedBy [Examples.boldRule] Examples.abcState = Ok O /\
  syncExecuteStrategies [Examples.boldRule] (fun _ => Examples.abcState) <> Ok None.
Proof. split; [reflexivity|discriminate]. Qed.

(** ** The style override *)

(** C8, as the code has it.  The hook [onChange] always returns a
    state whose next-character style override is empty.  The driver
    itself returns a state with an empty override when the pass
    applied changes; when it applied none it returns the state it was
    given, override included. *)
Theorem override_reset_on_new_versions decorators state changes content applied :
  collectChanges decorators state = Ok changes ->
  reduceChanges changes (getCurrentContent state) = Ok (content, applied) ->
  (exists state', onChange decorators state = Ok state' /\
                  getInlineStyleOverride state' = Some []) /\
  (exists state', syncExecuteStrategies decorators (fun _ => state) = Ok (Some state') /\
                  (applied <> O -> getInlineStyleOverride state' = Some []) /\
                  (applied = O -> state' = state)).
Proof.
  intros Hcollect Hreduce.
  assert (Hsync : syncExecuteStrategies decorators (fun _ => state) =
                  Ok (Some (if Nat.eqb applied 0 then state
                            else resetStateToUnstyled
                                   (acceptSelection
                                      (push state content (Some "apply-inline-styles"))
                                      (getSelection state))))).
  { unfold syncExecuteStrategies. rewrite Hcollect. cbn [bind].
    unfold applyChangesToState. by rewrite Hreduce. }
  split.
  - unfold onChange. rewrite Hsync. cbn [bind or_else]. eexists. split; [done|]. done.
  - rewrite Hsync. eexists. split; [done|].
    destruct applied as [|k]; simpl; split; intros; done.
Qed.

Lemma override_reset_on_new_versions_witness :
  (exists state', onChange [Examples.boldRule] Examples.readmeState = Ok state' /\
                  getInlineStyleOverride state' = Some []) /\
  (exists state', syncExecuteStrategies [Examples.boldRule]
                    (fun _ => Examples.readmeState) = Ok (Some state') /\
                  (1%nat <> O -> getInlineStyleOverride state' = Some []) /\
                  (1%nat = O -> state' = Examples.readmeState)).
Proof.
  eapply (override_reset_on_new_versions [Examples.boldRule] Examples.readmeState);
    reflexivity.
Defined.

(** C8 as stated fails: with an override pending and nothing to
    change, the driver's output still carries the override, and the
    timer callback of [executeStrategies] hands that state to the
    host. *)
Lemma override_survives_noop :
  let state := Examples.editor [Examples.block "a" "abc"] (Some ["BOLD"]) in
  (exists state', syncExecuteStrategies [Examples.boldRule] (fun _ => state) =
                    Ok (Some state') /\
                  getInlineStyleOverride state' <> Some []) /\
  (exists h', runTimer (ExecuteTimer [Examples.boldRule] HostGetter) (Examples.host state) =
                (h', None) /\
              getInlineStyleOverride (editorState h') <> Some []).
Proof.
  split; eexists; (split; [reflexivity|discriminate]).
Qed.

(** ** Clamping *)

(** What the driver returns when no strategy throws. *)
Lemma syncExecuteStrategies_quiet decorators state :
  wf_content (getCurrentContent state) ->
  Forall (fun d => quiet d (getBlockMap (getCurrentContent state))) decorators ->
  let blocks := getBlockMap (getCurrentContent state) in
  let changes := allChanges decorators blocks in
  exists content',
    getBlockMap content' = (reconcileBlocks changes blocks O).1 /\
    reduceChanges changes (getCurrentContent state) =
      Ok (content', (reconcileBlocks changes blocks O).2) /\
    syncExecuteStrategies decorators (fun _ => state) =
      Ok (Some (if Nat.eqb (reconcileBlocks changes blocks O).2 0 then state
                else resetStateToUnstyled
                       (acceptSelection
                          (push state content' (Some "apply-inline-styles"))
                          (getSelection state)))).
Proof.
  intros Hwf Hquiet blocks changes.
  destruct (reduceChanges_spec changes (getCurrentContent state) Hwf)
    as (content' & Hrun & Hblocks); [apply allChanges_keys|].
  exists content'. split; [done|]. split; [done|].
  unfold syncExecuteStrategies. rewrite collectChanges_quiet by done. cbn [bind].
  unfold applyChangesToState. fold blocks. fold changes. by rewrite Hrun.
Qed.

(** C3, as the code has it.  [limitSelection] brings the anchor up to
    0 and the focus down to the length of the block's text, and does
    no more: the start of the selection is never negative and its end
    never past the text.  With that, a pass over a well-formed
    document in which no strategy throws never raises, whatever
    offsets the strategies report. *)
Theorem clamping_keeps_reconciliation_total decorators state :
  wf_content (getCurrentContent state) ->
  Forall (fun d => quiet d (getBlockMap (getCurrentContent state))) decorators ->
  (exists state', syncExecuteStrategies decorators (fun _ => state) = Ok (Some state')) /\
  (forall change block, exists selection,
      limitSelection (createSelectionForChange change) (Some block) = Ok selection /\
      getStartOffset selection = Z.max (start change) 0 /\
      getEndOffset selection = Z.min (getLength block) (end_ change) /\
      0 <= getStartOffset selection /\
      getEndOffset selection <= getLength block).
Proof.
  intros Hwf Hquiet. split.
  - destruct (syncExecuteStrategies_quiet decorators state Hwf Hquiet)
      as (content' & _ & _ & Hsync).
    rewrite Hsync. by eexists.
  - intros change block. exists (limited change block).
    split; [apply limitSelection_limited|]. cbn. unfold clampedStart, clampedEnd. lia.
Qed.

Lemma wf_content_block key text : wf_content (Examples.document [Examples.block key text]).
Proof.
  split; simpl.
  - apply NoDup_singleton.
  - constructor; [|constructor]. unfold wf_block. simpl. apply length_replicate.
Qed.

Lemma clamping_keeps_reconciliation_total_witness :
  (exists state', syncExecuteStrategies [Examples.wildRule]
                    (fun _ => Examples.abcState) = Ok (Some state')) /\
  (forall change block, exists selection,
      limitSelection (createSelectionForChange change) (Some block) = Ok selection /\
      getStartOffset selection = Z.max (start change) 0 /\
      getEndOffset selection = Z.min (getLength block) (end_ change) /\
      0 <= getStartOffset selection /\
      getEndOffset selection <= getLength block).
Proof.
  apply (clamping_keeps_reconciliation_total [Examples.wildRule] Examples.abcState).
  - apply wf_content_block.
  - repeat constructor.
Defined.

(** C3 as stated fails: a range reported from 5 to 7 on the block
    "abc" is clamped to the selection from 5 to 3, whose start is
    past the end of the text. *)
Lemma clamped_range_escapes_block :
  let change := {| start := 5; end_ := 7; change_styles := ["BOLD"]; blockKey := "a" |} in
  let block := Examples.block "a" "abc" in
  exists selection,
    limitSelection (createSelectionForChange change) (Some block) = Ok selection /\
    ~ (0 <= getStartOffset selection <= getLength block /\
       0 <= getEndOffset selection <= getLength block).
Proof.
  eexists. split; [reflexivity|]. vm_compute. intros [[_ Hle] _]. by apply Hle.
Qed.

(** ** The structural-edit guard *)

(** C4, as the code has it.  [handleReturn] calls the guard on every
    return keystroke.  When the current inline style is not empty the
    guard queues the strip, and the strip, once it runs, hands the
    stripped state to the continuation, which queues a reconciliation
    pass on it.  When the current inline style is empty the guard
    queues nothing: the continuation is never called and the host is
    left as it was. *)
Theorem return_key_guard decorators h currentInlineStyle :
  getCurrentInlineStyle
    (forceSelection (editorState h) (getSelection (editorState h))) = Ok currentInlineStyle ->
  (currentInlineStyle <> [] ->
     handleReturn decorators h =
       Ok (setTimeout h (StripTimer HostGetter (ThenExecute decorators))) /\
     forall h1 stripped,
       strippedState (editorState h1) = Ok stripped ->
       runTimer (StripTimer HostGetter (ThenExecute decorators)) h1 =
         (setTimeout h1 (ExecuteTimer decorators (ConstGetter stripped)), None)) /\
  (currentInlineStyle = [] -> handleReturn decorators h = Ok h).
Proof.
  intros Hstyle. unfold handleReturn, checkIfWeNeedToStripStyles. cbn [callGetter].
  rewrite Hstyle. cbn [bind]. split.
  - intros Hne. destruct currentInlineStyle as [|s rest]; [done|]. split; [done|].
    intros h1 stripped Hstrip. unfold runTimer, stripStyles. cbn [callGetter].
    by rewrite Hstrip.
  - by intros ->.
Qed.

Lemma return_key_guard_witness :
  (["BOLD"] <> [] ->
     handleReturn [Examples.boldRule] (Examples.host Examples.boldState) =
       Ok (setTimeout (Examples.host Examples.boldState)
             (StripTimer HostGetter (ThenExecute [Examples.boldRule]))) /\
     forall h1 stripped,
       strippedState (editorState h1) = Ok stripped ->
       runTimer (StripTimer HostGetter (ThenExecute [Examples.boldRule])) h1 =
         (setTimeout h1 (ExecuteTimer [Examples.boldRule] (ConstGetter stripped)), None)) /\
  (["BOLD"] = [] ->
     handleReturn [Examples.boldRule] (Examples.host Examples.boldState) =
       Ok (Examples.host Examples.boldState)).
Proof.
  apply (return_key_guard [Examples.boldRule] (Examples.host Examples.boldState) ["BOLD"]).
  reflexivity.
Defined.

(** C4 as stated fails: on an unstyled document the return keystroke
    queues nothing, so however long the event loop runs, no timer
    runs and no reconciliation pass follows. *)
Lemma return_key_without_styles_schedules_nothing :
  let h := Examples.host Examples.readmeState in
  handleReturn [Examples.boldRule; Examples.underlineRule] h = Ok h /\
  forall turns, runTimers turns h = (h, []).
Proof.
  split; [reflexivity|]. intros [|turns]; reflexivity.
Qed.

(** ** The strip *)

Lemma substring_none n s : String.substring n 0 s = EmptyString.
Proof.
  revert s. induction n as [|n IH]; intros [|c s]; simpl; done.
Qed.

Lemma append_empty_r s : (s +:+ EmptyString)%string = s.
Proof.
  induction s as [|c s IH]; [done|].
  change (String c (s +:+ EmptyString)%string = String c s). by rewrite IH.
Qed.

Lemma lookupBlock_middle done b rest :
  getKey b ∉ map getKey done ->
  lookupBlock (done ++ b :: rest) (getKey b) = Some b.
Proof.
  induction done as [|x done IH]; simpl; intros Hnot.
  - by rewrite decide_True.
  - rewrite decide_False.
    + apply IH. intros Hin. apply Hnot. by right.
    + intros Heq. apply Hnot. rewrite Heq. left.
Qed.

Lemma setBlock_middle done b rest nb :
  getKey b ∉ map getKey done ->
  setBlock (done ++ b :: rest) (getKey b) nb = done ++ nb :: rest.
Proof.
  induction done as [|x done IH]; simpl; intros Hnot.
  - by rewrite decide_True.
  - rewrite decide_False.
    + f_equal. apply IH. intros Hin. apply Hnot. by right.
    + intros Heq. apply Hnot. rewrite Heq. left.
Qed.

Lemma stripBlock_empty b : wf_block b -> getText b = EmptyString -> stripBlock b = b.
Proof.
  destruct b as [k t chars]. unfold wf_block, stripBlock. simpl. intros Hlen ->.
  simpl in *. by destruct chars.
Qed.

Lemma stripReducer_spec acc done b rest :
  getKey b ∉ map getKey done ->
  wf_block b ->
  getBlockMap acc = done ++ b :: rest ->
  exists acc',
    stripReducer acc b = Ok acc' /\
    getBlockMap acc' = done ++ stripBlock b :: rest.
Proof.
  intros Hnot Hwf Hacc. unfold stripReducer, replaceText.
  destruct (decide (getText b = EmptyString)) as [Hempty|Hfull].
  - exists acc. rewrite Hempty. split.
    + unfold getLength. rewrite Hempty. unfold isCollapsed. cbn.
      by rewrite bool_decide_eq_true_2.
    + by rewrite stripBlock_empty.
  - rewrite (bool_decide_eq_false_2 _ Hfull), andb_false_r.
    cbn [getStartKey getStartOffset getEndOffset set_focusOffset set_anchorOffset
           createEmpty isBackward anchorKey focusKey anchorOffset focusOffset hasFocus].
    unfold getBlockForKey. rewrite Hacc, lookupBlock_middle by done.
    eexists. split; [done|]. cbn [getBlockMap].
    rewrite setBlock_middle by done. do 2 f_equal.
    unfold stripBlock, text_slice, getLength. f_equal.
    + rewrite Nat2Z.id. change (Z.to_nat 0) with O.
      rewrite !Nat.sub_diag, !substring_none, append_empty_r. reflexivity.
    + rewrite Nat2Z.id. simpl. rewrite drop_ge by (unfold wf_block in Hwf; lia).
      by rewrite app_nil_r.
Qed.

Lemma reduce_stripReducer todo :
  forall done acc,
    NoDup (map getKey (done ++ todo)) ->
    Forall wf_block todo ->
    getBlockMap acc = done ++ todo ->
    exists acc',
      reduce stripReducer todo acc = Ok acc' /\
      getBlockMap acc' = done ++ map stripBlock todo.
Proof.
  induction todo as [|b rest IH]; intros done acc Hnd Hwf Hacc.
  - simpl. by exists acc.
  - apply Forall_cons in Hwf as [Hb Hwf]. cbn [reduce].
    assert (Hnot : getKey b ∉ map getKey done).
    { rewrite map_app in Hnd. apply NoDup_app in Hnd as (_ & Hdisj & _).
      intros Hin. apply (Hdisj _ Hin). left. }
    destruct (stripReducer_spec acc done b rest Hnot Hb Hacc) as (acc1 & Hrun & Hacc1).
    rewrite Hrun. cbn [bind].
    destruct (IH (done ++ [stripBlock b]) acc1) as (acc' & Hred & Hfinal).
    + rewrite <- app_assoc. simpl.
      rewrite map_app in *. simpl in *. done.
    + done.
    + rewrite <- app_assoc. done.
    + exists acc'. split; [done|]. rewrite Hfinal, <- app_assoc. done.
Qed.

Lemma strippedContent_spec content :
  wf_content content ->
  exists content',
    strippedContent content = Ok content' /\
    getBlockMap content' = map stripBlock (getBlockMap content).
Proof.
  intros [Hnd Hwf]. unfold strippedContent.
  by apply (reduce_stripReducer (getBlockMap content) [] content).
Qed.

Lemma push_blocks state content changeType :
  getBlockMap (getCurrentContent (push state content changeType)) = getBlockMap content.
Proof. unfold push. destruct (decide _) as [->|]; done. Qed.

(** C5.  On a well-formed editor state the strip succeeds, and the
    editor state it builds holds a document with the same blocks in
    the same order, each with its key and text unchanged and with an
    empty style set on every character; that state is what the
    continuation receives. *)
Theorem strip_clears_every_style state :
  wf_content (getCurrentContent state) ->
  exists stripped,
    strippedState state = Ok stripped /\
    Forall2
      (fun block block' =>
         getKey block' = getKey block /\
         getText block' = getText block /\
         length (getCharacterList block') = String.length (getText block) /\
         Forall (fun ch => getStyle ch = []) (getCharacterList block'))
      (getBlockMap (getCurrentContent state))
      (getBlockMap (getCurrentContent stripped)) /\
    forall g h afterwards,
      callGetter g h tt = state ->
      stripStyles g afterwards h = Ok (callAfterwards afterwards stripped h).
Proof.
  intros Hwf. destruct (strippedContent_spec _ Hwf) as (content' & Hrun & Hblocks).
  unfold strippedState. rewrite Hrun. cbn [bind]. eexists. split; [done|]. split.
  - cbn [acceptSelection updateSelection getCurrentContent].
    rewrite push_blocks, Hblocks. apply Forall2_fmap_r, Forall_Forall2_diag.
    apply Forall_forall. intros b _. simpl.
    rewrite length_replicate. repeat split. by apply Forall_replicate.
  - intros g h afterwards Hg. unfold stripStyles, strippedState. rewrite Hg, Hrun. done.
Qed.

Lemma strip_clears_every_style_witness :
  exists stripped,
    strippedState Examples.boldState = Ok stripped /\
    Forall2
      (fun block block' =>
         getKey block' = getKey block /\
         getText block' = getText block /\
         length (getCharacterList block') = String.length (getText block) /\
         Forall (fun ch => getStyle ch = []) (getCharacterList block'))
      (getBlockMap (getCurrentContent Examples.boldState))
      (getBlockMap (getCurrentContent stripped)) /\
    forall g h afterwards,
      callGetter g h tt = Examples.boldState ->
      stripStyles g afterwards h = Ok (callAfterwards afterwards stripped h).
Proof.
  apply (strip_clears_every_style Examples.boldState).
  split; simpl.
  - apply NoDup_singleton.
  - by repeat constructor.
Defined.

(** ** The counter *)

Lemma reduce_app {A B : Type} (f : A -> B -> Result A) (l1 l2 : list B) (acc : A) :
  reduce f (l1 ++ l2) acc = let* acc' := reduce f l1 acc in reduce f l2 acc'.
Proof.
  revert acc. induction l1 as [|x l1 IH]; intros acc; simpl; [done|].
  destruct (f acc x) as [acc'|e]; simpl; [apply IH|done].
Qed.

Lemma map_eq_replicate {A B : Type} (f : A -> B) (l : list A) (v : B) :
  map f l = replicate (length (map f l)) v <-> Forall (fun x => f x = v) l.
Proof.
  induction l as [|x l IH]; simpl.
  - split; [constructor|done].
  - split.
    + intros [= Hx Hl]. constructor; [done|]. by apply IH.
    + intros [Hx Hl]%Forall_cons. f_equal; [done|]. by apply IH.
Qed.

(** The comparison of [applyInlineStyles] asks whether some character
    of the slice carries a style list other than the whole array
    [styles]. *)
Lemma needToChange_Exists block selection styles :
  needToChange block selection styles = true <->
  Exists (fun ch => getStyle ch <> styles)
    (Immutable.slice (getCharacterList block)
       (getStartOffset selection) (getEndOffset selection)).
Proof.
  unfold needToChange, Immutable.equals, Immutable.Repeat, Immutable.toList.
  rewrite negb_true_iff, bool_decide_eq_false, map_eq_replicate. split.
  - intros Hnot. apply not_Forall_Exists in Hnot; [done|]. intros x. apply _.
  - intros Hex Hall. apply Exists_exists in Hex as (ch & Hin & Hne).
    rewrite Forall_forall in Hall. by apply Hne, Hall.
Qed.

Lemma needToChange_Forall block selection styles :
  needToChange block selection styles = false <->
  Forall (fun ch => getStyle ch = styles)
    (Immutable.slice (getCharacterList block)
       (getStartOffset selection) (getEndOffset selection)).
Proof.
  unfold needToChange, Immutable.equals, Immutable.Repeat, Immutable.toList.
  by rewrite negb_false_iff, bool_decide_eq_true, map_eq_replicate.
Qed.

Lemma reconcileBlocks_keys changes :
  forall blocks applied,
    map getKey (reconcileBlocks changes blocks applied).1 = map getKey blocks.
Proof.
  induction changes as [|change rest IH]; intros blocks applied; simpl; [done|].
  rewrite IH. apply map_getKey_map, applyChangeToBlock_key.
Qed.

Lemma wf_blocks_reconcile changes :
  forall blocks applied,
    wf_blocks blocks -> wf_blocks (reconcileBlocks changes blocks applied).1.
Proof.
  induction changes as [|change rest IH]; intros blocks applied Hwf; simpl; [done|].
  by apply IH, wf_blocks_applyChange.
Qed.

(** C7, as the code has it.  The reconciler reads, for a change, the
    slice of the block's character list between the clamped offsets,
    in the document as it stands when the change is reached, and
    compares the style list of every character in it with the whole
    array of styles of the change.  When some character differs, each
    style name of the change bumps the counter, so the change adds the
    number of its styles; when none differs the change adds nothing.
    The counter starts at zero and its final value is the sum of what
    the changes add. *)
Theorem counter_counts_styles_of_unsettled_changes content changes change :
  wf_content content ->
  Forall (fun c => blockKey c ∈ map getKey (getBlockMap content)) (changes ++ [change]) ->
  reduceChanges [] content = Ok (content, O) /\
  exists content1 applied1 content2 block,
    reduceChanges changes content = Ok (content1, applied1) /\
    getBlockForKey content1 (blockKey change) = Some block /\
    let unsettled :=
      Exists (fun ch => getStyle ch <> change_styles change)
        (Immutable.slice (getCharacterList block)
           (Z.max (start change) 0) (Z.min (getLength block) (end_ change))) in
    (unsettled ->
       reduceChanges (changes ++ [change]) content =
         Ok (content2, (applied1 + length (change_styles change))%nat)) /\
    (~ unsettled ->
       reduceChanges (changes ++ [change]) content = Ok (content2, applied1)).
Proof.
  intros Hwf Hkeys. split; [done|].
  apply Forall_app in Hkeys as [Hkeys Hkey]. rewrite Forall_singleton in Hkey.
  destruct (reduceChanges_spec changes content Hwf Hkeys) as (content1 & Hrun1 & Hblocks1).
  assert (Hwf1 : wf_content content1).
  { unfold wf_content. rewrite Hblocks1. by apply wf_blocks_reconcile. }
  assert (Hkey1 : blockKey change ∈ map getKey (getBlockMap content1)).
  { rewrite Hblocks1, reconcileBlocks_keys. exact Hkey. }
  apply lookupBlock_is_Some in Hkey1 as [block Hblock].
  destruct (changeReducer_spec content1 change
              (reconcileBlocks changes (getBlockMap content) O).2 block Hwf1 Hblock)
    as (content2 & Hrun2 & _).
  exists content1, (reconcileBlocks changes (getBlockMap content) O).2, content2, block.
  split; [done|]. split; [done|].
  assert (Hlast : reduceChanges (changes ++ [change]) content =
                  Ok (content2,
                      ((reconcileBlocks changes (getBlockMap content) O).2 +
                       incrementsOf change (getBlockMap content1))%nat)).
  { unfold reduceChanges in *. rewrite reduce_app, Hrun1. cbn [bind reduce].
    rewrite Hrun2. done. }
  unfold incrementsOf in Hlast. unfold getBlockForKey in Hblock. rewrite Hblock in Hlast.
  pose proof (needToChange_Exists block (limited change block) (change_styles change))
    as Hneed.
  cbn in Hneed. unfold clampedStart, clampedEnd in Hneed.
  split.
  - intros Hun. apply Hneed in Hun. by rewrite Hun in Hlast.
  - intros Hun. destruct (needToChange block (limited change block) (change_styles change)).
    + exfalso. by apply Hun, Hneed.
    + by rewrite Nat.add_0_r in Hlast.
Qed.

Lemma counter_counts_styles_of_unsettled_changes_witness :
  let content := Examples.document [Examples.block "a" Examples.readme] in
  let changes := [Examples.boldChange] in
  let change := Examples.underlineChange in
  reduceChanges [] content = Ok (content, O) /\
  exists content1 applied1 content2 block,
    reduceChanges changes content = Ok (content1, applied1) /\
    getBlockForKey content1 (blockKey change) = Some block /\
    let unsettled :=
      Exists (fun ch => getStyle ch <> change_styles change)
        (Immutable.slice (getCharacterList block)
           (Z.max (start change) 0) (Z.min (getLength block) (end_ change))) in
    (unsettled ->
       reduceChanges (changes ++ [change]) content =
         Ok (content2, (applied1 + length (change_styles change))%nat)) /\
    (~ unsettled ->
       reduceChanges (changes ++ [change]) content = Ok (content2, applied1)).
Proof.
  apply (counter_counts_styles_of_unsettled_changes
           (Examples.document [Examples.block "a" Examples.readme])
           [Examples.boldChange] Examples.underlineChange).
  - apply wf_content_block.
  - repeat constructor.
Defined.

(** C7 as stated fails: the two characters of "ab" carry bold and
    italic, the change asks for bold and italic, and the counter
    stays at zero, although neither character carries bold as its
    sole style, nor italic. *)
Lemma counter_ignores_sole_style_reading :
  let block := Examples.boldItalicBlock in
  let change := Examples.boldItalicChange in
  (exists content',
     reduceChanges [change] (Examples.document [block]) = Ok (content', O)) /\
  spec_increments
    (Immutable.slice (getCharacterList block)
       (Z.max (start change) 0) (Z.min (getLength block) (end_ change)))
    (change_styles change) = 2%nat.
Proof.
  split; [eexists|]; reflexivity.
Qed.

(** ** Style sets *)

Lemma elem_of_OrderedSet_add x s o :
  x ∈ Immutable.OrderedSet_add s o <-> x = s \/ x ∈ o.
Proof.
  unfold Immutable.OrderedSet_add. destruct (decide (s ∈ o)) as [Hin|Hnot].
  - split; [by right|]. by intros [->|?].
  - rewrite elem_of_app, list_elem_of_singleton. tauto.
Qed.

Lemma OrderedSet_add_present s o : s ∈ o -> Immutable.OrderedSet_add s o = o.
Proof. intros Hin. unfold Immutable.OrderedSet_add. by rewrite decide_True. Qed.

Lemma elem_of_addAll x styles o : x ∈ addAll styles o <-> x ∈ styles \/ x ∈ o.
Proof.
  revert o. induction styles as [|s rest IH]; intros o; simpl.
  - split; [by right|]. by intros [?%elem_of_nil|?].
  - rewrite IH, elem_of_OrderedSet_add, elem_of_cons. tauto.
Qed.

Lemma addAll_present styles o : (forall s, s ∈ styles -> s ∈ o) -> addAll styles o = o.
Proof.
  induction styles as [|s rest IH]; intros Hall; simpl; [done|].
  rewrite OrderedSet_add_present by (apply Hall; left).
  apply IH. intros x Hx. apply Hall. by right.
Qed.

Lemma addAll_fresh styles o :
  NoDup (o ++ styles) -> addAll styles o = o ++ styles.
Proof.
  revert o. induction styles as [|s rest IH]; intros o Hnd; simpl.
  - by rewrite app_nil_r.
  - unfold Immutable.OrderedSet_add. rewrite decide_False.
    + rewrite IH; rewrite <- app_assoc; done.
    + apply NoDup_app in Hnd as (_ & Hdisj & _). intros Hin. apply (Hdisj _ Hin). left.
Qed.

Lemma getStyle_applyStyles styles ch :
  getStyle (applyStyles styles ch) = addAll styles (getStyle ch).
Proof.
  unfold applyStyles, addAll. revert ch.
  induction styles as [|s rest IH]; intros ch; simpl; [done|]. by rewrite IH.
Qed.

Lemma applyStyles_present styles ch :
  (forall s, s ∈ styles -> s ∈ getStyle ch) -> applyStyles styles ch = ch.
Proof.
  intros Hall. pose proof (getStyle_applyStyles styles ch) as Hstyle.
  rewrite addAll_present in Hstyle by done.
  assert (Hentity : getEntity (applyStyles styles ch) = getEntity ch).
  { unfold applyStyles. clear. revert ch.
    induction styles as [|s rest IH]; intros ch; simpl; [done|]. by rewrite IH. }
  destruct (applyStyles styles ch), ch. simpl in *. by subst.
Qed.

(** ** Slices *)

Lemma slice_elem {A : Type} (l : list A) a f i x :
  0 <= a -> a <= Z.of_nat i < f -> f <= Z.of_nat (length l) ->
  l !! i = Some x -> x ∈ Immutable.slice l a f.
Proof.
  intros Ha Hi Hf Hx. unfold Immutable.slice, Immutable.resolveIndex.
  destruct (Z.ltb_spec a 0); [lia|]. destruct (Z.ltb_spec f 0); [lia|].
  apply list_elem_of_lookup. exists (i - Z.to_nat a)%nat.
  rewrite lookup_take_lt by lia. rewrite lookup_drop.
  replace (Z.to_nat (Z.of_nat (length l) `min` a) + (i - Z.to_nat a))%nat with i by lia.
  done.
Qed.

Lemma elem_slice {A : Type} (l : list A) a f x :
  0 <= a -> 0 <= f -> f <= Z.of_nat (length l) ->
  x ∈ Immutable.slice l a f ->
  exists i, a <= Z.of_nat i < f /\ l !! i = Some x.
Proof.
  intros Ha Hf Hlen Hx. unfold Immutable.slice, Immutable.resolveIndex in Hx.
  destruct (Z.ltb_spec a 0); [lia|]. destruct (Z.ltb_spec f 0); [lia|].
  apply list_elem_of_lookup in Hx as [j Hj].
  apply lookup_take_Some in Hj as [Hj Hlt]. rewrite lookup_drop in Hj.
  exists (Z.to_nat (Z.of_nat (length l) `min` a) + j)%nat. split; [|done].
  apply lookup_lt_Some in Hj. lia.
Qed.

(** ** Blocks after a list of changes *)

Lemma reconcileBlocks_map changes :
  forall blocks applied,
    (reconcileBlocks changes blocks applied).1 = map (blockAfter changes) blocks.
Proof.
  induction changes as [|change rest IH]; intros blocks applied; simpl.
  - by rewrite map_id.
  - by rewrite IH, map_map.
Qed.

Lemma blockAfter_key changes : forall b, getKey (blockAfter changes b) = getKey b.
Proof.
  induction changes as [|change rest IH]; intros b; simpl; [done|].
  by rewrite IH, applyChangeToBlock_key.
Qed.

Lemma blockAfter_text changes : forall b, getText (blockAfter changes b) = getText b.
Proof.
  induction changes as [|change rest IH]; intros b; simpl; [done|].
  by rewrite IH, applyChangeToBlock_text.
Qed.

Lemma covers_applyChange change c b i :
  covers change (applyChangeToBlock c b) i <-> covers change b i.
Proof.
  unfold covers, clampedEnd.
  by rewrite applyChangeToBlock_key, applyChangeToBlock_getLength.
Qed.

Lemma inRange_true a f i : inRange a f i = true <-> a <= Z.of_nat i < f.
Proof. unfold inRange. rewrite andb_true_iff, Z.leb_le, Z.ltb_lt. done. Qed.

(** One change at one position: the styles of the change are added
    where the change covers the position, nothing moves elsewhere. *)
Lemma lookup_applyChangeToBlock change b i ch :
  getCharacterList b !! i = Some ch ->
  (covers change b i /\
   getCharacterList (applyChangeToBlock change b) !! i =
     Some (applyStyles (change_styles change) ch)) \/
  (~ covers change b i /\
   getCharacterList (applyChangeToBlock change b) !! i = Some ch).
Proof.
  intros Hch. unfold applyChangeToBlock, covers.
  destruct (decide (getKey b = blockKey change)) as [Hk|Hk]; [|right; tauto].
  simpl. rewrite lookup_styleRange, Hch. simpl.
  destruct (inRange _ _ i) eqn:Hin.
  - left. by apply inRange_true in Hin.
  - right. split; [|done]. intros [_ Hr]. apply inRange_true in Hr. congruence.
Qed.

(** Styles are only ever added. *)
Lemma blockAfter_grows changes :
  forall b i ch,
    getCharacterList b !! i = Some ch ->
    exists ch',
      getCharacterList (blockAfter changes b) !! i = Some ch' /\
      forall s, s ∈ getStyle ch -> s ∈ getStyle ch'.
Proof.
  induction changes as [|c rest IH]; intros b i ch Hch; simpl.
  - by exists ch.
  - destruct (lookup_applyChangeToBlock c b i ch Hch) as [[_ H1]|[_ H1]].
    + destruct (IH _ _ _ H1) as (ch' & Hch' & Hsub). exists ch'. split; [done|].
      intros s Hs. apply Hsub. rewrite getStyle_applyStyles, elem_of_addAll. by right.
    + by apply IH.
Qed.

(** A change leaves all its styles on the positions it covers. *)
Lemma blockAfter_covers changes :
  forall change b i ch,
    change ∈ changes ->
    covers change b i ->
    getCharacterList b !! i = Some ch ->
    exists ch',
      getCharacterList (blockAfter changes b) !! i = Some ch' /\
      forall s, s ∈ change_styles change -> s ∈ getStyle ch'.
Proof.
  induction changes as [|c rest IH]; intros change b i ch Hin Hcov Hch.
  - by apply elem_of_nil in Hin.
  - simpl. apply elem_of_cons in Hin as [->|Hin].
    + destruct (lookup_applyChangeToBlock c b i ch Hch) as [[_ H1]|[Hnot _]]; [|done].
      destruct (blockAfter_grows rest _ _ _ H1) as (ch' & Hch' & Hsub).
      exists ch'. split; [done|]. intros s Hs. apply Hsub.
      rewrite getStyle_applyStyles, elem_of_addAll. by left.
    + destruct (lookup_applyChangeToBlock c b i ch Hch) as [[_ H1]|[_ H1]];
        (eapply IH; [done| |exact H1]); by apply covers_applyChange.
Qed.

(** ** Changes that are already in place *)

Lemma set_characterList_same b : set_characterList b (getCharacterList b) = b.
Proof. by destruct b. Qed.

(** A change that adds nothing to the counter leaves the blocks as
    they are. *)
Lemma applyChange_settled change blocks :
  wf_blocks blocks ->
  incrementsOf change blocks = O ->
  map (applyChangeToBlock change) blocks = blocks.
Proof.
  intros [Hnd Hwf] Hzero.
  transitivity (map (fun x => x) blocks); [|by rewrite map_id].
  apply map_ext_in. intros x Hx%list_elem_of_In.
  unfold applyChangeToBlock. destruct (decide (getKey x = blockKey change)) as [Hk|]; [|done].
  pose proof (lookupBlock_NoDup _ _ Hnd Hx) as Hlx. rewrite Hk in Hlx.
  unfold incrementsOf in Hzero. rewrite Hlx in Hzero.
  assert (Hwx : wf_block x) by (eapply Forall_forall; [exact Hwf|done]).
  transitivity (set_characterList x (getCharacterList x));
    [f_equal|apply set_characterList_same].
  apply list_eq. intros i. rewrite lookup_styleRange.
  destruct (getCharacterList x !! i) as [ch|] eqn:Hch; simpl; [|done].
  destruct (inRange _ _ i) eqn:Hin; [|done]. f_equal.
  apply inRange_true in Hin.
  destruct (needToChange x (limited change x) (change_styles change)) eqn:Hneed.
  - destruct (change_styles change); [done|discriminate].
  - apply needToChange_Forall in Hneed. cbn in Hneed.
    apply applyStyles_present. intros s Hs.
    rewrite Forall_forall in Hneed. rewrite (Hneed ch); [done|].
    apply (slice_elem _ _ _ i); [unfold clampedStart; lia|done| |done].
    rewrite (wf_block_length _ Hwx). unfold clampedEnd. lia.
Qed.

Lemma reconcileBlocks_counter_ge changes :
  forall blocks applied, (applied <= (reconcileBlocks changes blocks applied).2)%nat.
Proof.
  induction changes as [|change rest IH]; intros blocks applied; simpl; [done|].
  etransitivity; [|apply IH]. lia.
Qed.

(** A pass that ends with the counter where it started has changed
    no block. *)
Lemma reconcileBlocks_unchanged changes :
  forall blocks applied,
    wf_blocks blocks ->
    (reconcileBlocks changes blocks applied).2 = applied ->
    (reconcileBlocks changes blocks applied).1 = blocks.
Proof.
  induction changes as [|change rest IH]; intros blocks applied Hwf Hcount; simpl; [done|].
  simpl in Hcount.
  pose proof (reconcileBlocks_counter_ge rest (map (applyChangeToBlock change) blocks)
                (applied + incrementsOf change blocks)%nat) as Hge.
  assert (Hzero : incrementsOf change blocks = O) by lia.
  rewrite Hzero, Nat.add_0_r in *.
  rewrite (applyChange_settled change blocks Hwf Hzero) in *. by apply IH.
Qed.

(** The blocks of the state the driver returns, whether it is the
    state it was given or a new version. *)
Lemma syncExecuteStrategies_blocks decorators state :
  wf_content (getCurrentContent state) ->
  Forall (fun d => quiet d (getBlockMap (getCurrentContent state))) decorators ->
  let blocks := getBlockMap (getCurrentContent state) in
  exists state',
    syncExecuteStrategies decorators (fun _ => state) = Ok (Some state') /\
    getBlockMap (getCurrentContent state') =
      map (blockAfter (allChanges decorators blocks)) blocks /\
    changesAppliedBy decorators state =
      Ok (reconcileBlocks (allChanges decorators blocks) blocks O).2.
Proof.
  intros Hwf Hquiet blocks.
  destruct (syncExecuteStrategies_quiet decorators state Hwf Hquiet)
    as (content' & Hblocks & Hreduce & Hsync).
  fold blocks in Hblocks, Hreduce, Hsync. rewrite Hsync. eexists. split; [done|]. split.
  - destruct (Nat.eqb_spec (reconcileBlocks (allChanges decorators blocks) blocks O).2 0)
      as [Hzero|Hpos].
    + rewrite <- reconcileBlocks_map with (applied := O).
      symmetry. by apply reconcileBlocks_unchanged.
    + cbn [resetStateToUnstyled setInlineStyleOverride acceptSelection updateSelection
             getCurrentContent].
      rewrite push_blocks, Hblocks. apply reconcileBlocks_map.
  - unfold changesAppliedBy. rewrite collectChanges_quiet by done. cbn [bind].
    fold blocks. by rewrite Hreduce.
Qed.

Lemma elem_of_allChanges change decorators blocks :
  change ∈ allChanges decorators blocks <->
  exists d b r, d ∈ decorators /\ b ∈ blocks /\ r ∈ reported (strategy d b) /\
                change = pushed d (getKey b) r.
Proof.
  unfold allChanges, changesOf. rewrite list_elem_of_In, in_flat_map. split.
  - intros (d & Hd & Hin). apply in_flat_map in Hin as (b & Hb & Hin).
    apply in_map_iff in Hin as (r & <- & Hr).
    exists d, b, r. by rewrite !list_elem_of_In.
  - intros (d & b & r & Hd & Hb & Hr & ->). exists d.
    split; [by apply list_elem_of_In|]. apply in_flat_map. exists b.
    split; [by apply list_elem_of_In|]. apply in_map. by apply list_elem_of_In.
Qed.

(** ** Overlapping rules *)

Lemma same_key_same_block blocks b b' :
  NoDup (map getKey blocks) -> b ∈ blocks -> b' ∈ blocks -> getKey b = getKey b' -> b = b'.
Proof.
  intros Hnd Hb Hb' Hkey.
  pose proof (lookupBlock_NoDup _ _ Hnd Hb) as H1.
  pose proof (lookupBlock_NoDup _ _ Hnd Hb') as H2.
  rewrite Hkey, H2 in H1. by injection H1.
Qed.

(** The styles of a character after a list of changes: those it had,
    and those of the changes that cover it. *)
Lemma blockAfter_styles changes :
  forall b i ch,
    getCharacterList b !! i = Some ch ->
    exists ch',
      getCharacterList (blockAfter changes b) !! i = Some ch' /\
      forall s, s ∈ getStyle ch' <->
                s ∈ getStyle ch \/
                exists c, c ∈ changes /\ covers c b i /\ s ∈ change_styles c.
Proof.
  induction changes as [|c rest IH]; intros b i ch Hch; simpl.
  - exists ch. split; [done|]. intros s. split; [by left|].
    intros [Hs|(c & Hc & _)]; [done|]. by apply elem_of_nil in Hc.
  - assert (Hmove : forall c' s,
              (c' ∈ rest /\ covers c' (applyChangeToBlock c b) i /\ s ∈ change_styles c') <->
              (c' ∈ rest /\ covers c' b i /\ s ∈ change_styles c')).
    { intros c' s. by rewrite covers_applyChange. }
    destruct (lookup_applyChangeToBlock c b i ch Hch) as [[Hcov H1]|[Hnot H1]];
      destruct (IH _ _ _ H1) as (ch' & Hch' & Hiff); exists ch'; (split; [done|]);
      intros s; rewrite Hiff; clear Hiff.
    + rewrite getStyle_applyStyles, elem_of_addAll. split.
      * intros [[Hs|Hs]|(c' & Hrest)].
        -- right. exists c. split; [left|done].
        -- by left.
        -- right. exists c'. apply Hmove in Hrest as (? & ? & ?).
           split; [by right|done].
      * intros [Hs|(c' & Hc' & Hcov' & Hs)]; [left; by right|].
        apply elem_of_cons in Hc' as [->|Hc']; [left; by left|].
        right. exists c'. by apply Hmove.
    + split.
      * intros [Hs|(c' & Hrest)]; [by left|].
        right. exists c'. apply Hmove in Hrest as (? & ? & ?).
        split; [by right|done].
      * intros [Hs|(c' & Hc' & Hcov' & Hs)]; [by left|].
        apply elem_of_cons in Hc' as [->|Hc']; [done|].
        right. exists c'. by apply Hmove.
Qed.

(** C6.  When two rules report ranges on the same block in one pass,
    every character that lies in both ranges carries, in the state the
    driver returns, every style of the one rule and every style of the
    other.  More precisely the character carries then the styles it
    had before the pass and the styles of the rules with a report
    that covers it, and no other: on a character that had no style
    and that only the two rules cover, exactly the union of their
    style sets. *)
Theorem overlapping_rules_both_apply decorators state d1 d2 block r1 r2 (i : nat) ch0 :
  wf_content (getCurrentContent state) ->
  Forall (fun d => quiet d (getBlockMap (getCurrentContent state))) decorators ->
  d1 ∈ decorators -> d2 ∈ decorators ->
  block ∈ getBlockMap (getCurrentContent state) ->
  r1 ∈ reported (strategy d1 block) ->
  r2 ∈ reported (strategy d2 block) ->
  r1.1 <= Z.of_nat i < r1.2 ->
  r2.1 <= Z.of_nat i < r2.2 ->
  getCharacterList block !! i = Some ch0 ->
  exists state' block' ch,
    syncExecuteStrategies decorators (fun _ => state) = Ok (Some state') /\
    getBlockForKey (getCurrentContent state') (getKey block) = Some block' /\
    getText block' = getText block /\
    getCharacterList block' !! i = Some ch /\
    (forall s, s ∈ styles d1 \/ s ∈ styles d2 -> s ∈ getStyle ch) /\
    (forall s, s ∈ getStyle ch <->
               s ∈ getStyle ch0 \/
               exists d r, d ∈ decorators /\ r ∈ reported (strategy d block) /\
                           covers (pushed d (getKey block) r) block i /\ s ∈ styles d).
Proof.
  intros Hwf Hquiet Hd1 Hd2 Hblock Hr1 Hr2 Hi1 Hi2 Hch0.
  destruct (syncExecuteStrategies_blocks decorators state Hwf Hquiet)
    as (state' & Hsync & Hblocks & _).
  set (blocks := getBlockMap (getCurrentContent state)) in *.
  set (changes := allChanges decorators blocks) in *.
  destruct Hwf as [Hnd Hwfb].
  assert (Hwb : wf_block block) by (eapply Forall_forall; [exact Hwfb|done]).
  assert (Hlen : Z.of_nat i < getLength block).
  { apply lookup_lt_Some in Hch0. rewrite <- (wf_block_length _ Hwb). lia. }
  destruct (blockAfter_styles changes block i ch0 Hch0) as (ch & Hch & Hiff).
  assert (Hiff' : forall s, s ∈ getStyle ch <->
            s ∈ getStyle ch0 \/
            exists d r, d ∈ decorators /\ r ∈ reported (strategy d block) /\
                        covers (pushed d (getKey block) r) block i /\ s ∈ styles d).
  { intros s. rewrite Hiff. split; (intros [Hs|Hex]; [by left|right]).
    - destruct Hex as (c & Hc & Hcov & Hs).
      apply elem_of_allChanges in Hc as (d & b' & r & Hd & Hb' & Hr & ->).
      assert (block = b') as <-
        by (apply (same_key_same_block blocks); [done..|apply Hcov]).
      by exists d, r.
    - destruct Hex as (d & r & Hd & Hr & Hcov & Hs).
      exists (pushed d (getKey block) r). split; [|done].
      apply elem_of_allChanges. by exists d, block, r. }
  exists state', (blockAfter changes block), ch. split; [done|]. split.
  { unfold getBlockForKey. rewrite Hblocks.
    rewrite lookupBlock_map by (intros; apply blockAfter_key).
    by rewrite lookupBlock_NoDup. }
  split; [apply blockAfter_text|]. split; [done|]. split; [|done].
  assert (Hcov : forall r, r.1 <= Z.of_nat i < r.2 ->
                           forall d, covers (pushed d (getKey block) r) block i).
  { intros r Hr d. split; [done|]. unfold clampedStart, clampedEnd. simpl. lia. }
  intros s [Hs|Hs]; apply Hiff'; right.
  - exists d1, r1. auto.
  - exists d2, r2. auto.
Qed.

Lemma overlapping_rules_both_apply_witness :
  exists state' block' ch,
    syncExecuteStrategies [Examples.boldRule; Examples.italicRule]
      (fun _ => Examples.readmeState) = Ok (Some state') /\
    getBlockForKey (getCurrentContent state')
      (getKey (Examples.block "a" Examples.readme)) = Some block' /\
    getText block' = getText (Examples.block "a" Examples.readme) /\
    getCharacterList block' !! 4%nat = Some ch /\
    (forall s, s ∈ styles Examples.boldRule \/ s ∈ styles Examples.italicRule ->
               s ∈ getStyle ch) /\
    (forall s, s ∈ getStyle ch <->
               s ∈ getStyle Examples.plain \/
               exists d r,
                 d ∈ [Examples.boldRule; Examples.italicRule] /\
                 r ∈ reported (strategy d (Examples.block "a" Examples.readme)) /\
                 covers (pushed d (getKey (Examples.block "a" Examples.readme)) r)
                   (Examples.block "a" Examples.readme) 4 /\
                 s ∈ styles d).
Proof.
  apply (overlapping_rules_both_apply [Examples.boldRule; Examples.italicRule]
           Examples.readmeState Examples.boldRule Examples.italicRule
           (Examples.block "a" Examples.readme) (0, 6) (3, 9) 4 Examples.plain).
  - apply wf_content_block.
  - repeat constructor.
  - left.
  - right. left.
  - left.
  - left.
  - left.
  - simpl. lia.
  - simpl. lia.
  - reflexivity.
Defined.

(** ** Idempotence *)

(** A character that carries the list [S] keeps it through changes
    which, where they cover it, all bring [S]. *)
Lemma blockAfter_keeps S i changes :
  forall b ch,
    (forall c, c ∈ changes -> covers c b i -> change_styles c = S) ->
    getCharacterList b !! i = Some ch ->
    getStyle ch = S ->
    getCharacterList (blockAfter changes b) !! i = Some ch.
Proof.
  induction changes as [|c rest IH]; intros b ch Hsame Hch Hstyle; simpl; [done|].
  assert (Hstep : getCharacterList (applyChangeToBlock c b) !! i = Some ch).
  { destruct (lookup_applyChangeToBlock c b i ch Hch) as [[Hcov H1]|[_ H1]]; [|done].
    rewrite H1. f_equal. apply applyStyles_present.
    rewrite (Hsame c); [by rewrite Hstyle|left|done]. }
  apply IH; [|done|done].
  intros c' Hc' Hcov. apply Hsame; [by right|].
  exact (proj1 (covers_applyChange c' c b i) Hcov).
Qed.

(** A character that starts without style, or with the list [S],
    carries exactly [S] after changes which, where they cover it, all
    bring [S], one of them at least covering it. *)
Lemma blockAfter_settles S i changes :
  NoDup S ->
  forall b ch c0,
    (forall c, c ∈ changes -> covers c b i -> change_styles c = S) ->
    c0 ∈ changes -> covers c0 b i ->
    getCharacterList b !! i = Some ch ->
    getStyle ch = [] \/ getStyle ch = S ->
    exists ch',
      getCharacterList (blockAfter changes b) !! i = Some ch' /\ getStyle ch' = S.
Proof.
  intros HS. induction changes as [|c rest IH]; intros b ch c0 Hsame Hc0 Hcov0 Hch Hinit.
  - by apply elem_of_nil in Hc0.
  - simpl.
    assert (Hrest : forall c', c' ∈ rest -> covers c' (applyChangeToBlock c b) i ->
                               change_styles c' = S).
    { intros c' Hc' Hcov. apply Hsame; [by right|].
      exact (proj1 (covers_applyChange c' c b i) Hcov). }
    destruct (lookup_applyChangeToBlock c b i ch Hch) as [[Hcov H1]|[Hnot H1]].
    + exists (applyStyles (change_styles c) ch).
      assert (Hstyle : getStyle (applyStyles (change_styles c) ch) = S).
      { rewrite getStyle_applyStyles, (Hsame c); [|left|done].
        destruct Hinit as [->| ->]; [by apply addAll_fresh|by apply addAll_present]. }
      split; [|done]. by apply (blockAfter_keeps S).
    + apply elem_of_cons in Hc0 as [->|Hc0]; [done|].
      apply (IH _ ch c0); try done.
      exact (proj2 (covers_applyChange c0 c b i) Hcov0).
Qed.

(** Changes that add nothing to the counter on these blocks: the pass
    over them changes nothing and counts nothing. *)
Lemma reconcileBlocks_settled changes :
  forall blocks applied,
    wf_blocks blocks ->
    (forall c, c ∈ changes -> incrementsOf c blocks = O) ->
    reconcileBlocks changes blocks applied = (blocks, applied).
Proof.
  induction changes as [|c rest IH]; intros blocks applied Hwf Hzero; simpl; [done|].
  rewrite (Hzero c) by left. rewrite applyChange_settled by (done || apply Hzero; left).
  rewrite Nat.add_0_r. apply IH; [done|]. intros c' Hc'. apply Hzero. by right.
Qed.

Lemma changesOf_map g decorator blocks :
  reads_text_only decorator ->
  (forall x, getKey (g x) = getKey x) -> (forall x, getText (g x) = getText x) ->
  changesOf decorator (map g blocks) = changesOf decorator blocks.
Proof.
  intros Hread Hkey Htext. unfold changesOf.
  induction blocks as [|b rest IH]; simpl; [done|].
  by rewrite IH, Hkey, (Hread (g b) b).
Qed.

Lemma allChanges_map g decorators blocks :
  Forall reads_text_only decorators ->
  (forall x, getKey (g x) = getKey x) -> (forall x, getText (g x) = getText x) ->
  allChanges decorators (map g blocks) = allChanges decorators blocks.
Proof.
  intros Hread Hkey Htext. unfold allChanges.
  induction Hread as [|d rest Hd Hrest IH]; simpl; [done|].
  by rewrite IH, changesOf_map.
Qed.

Lemma quiet_map g decorator blocks :
  reads_text_only decorator ->
  (forall x, getKey (g x) = getKey x) -> (forall x, getText (g x) = getText x) ->
  quiet decorator blocks -> quiet decorator (map g blocks).
Proof.
  intros Hread Hkey Htext Hq. unfold quiet in *. apply Forall_map.
  eapply Forall_impl; [exact Hq|]. intros b Hb. simpl.
  by rewrite (Hread (g b) b).
Qed.

Lemma wf_blocks_blockAfter changes blocks :
  wf_blocks blocks -> wf_blocks (map (blockAfter changes) blocks).
Proof.
  intros Hwf. rewrite <- reconcileBlocks_map with (applied := O).
  by apply wf_blocks_reconcile.
Qed.

Lemma blockAfter_length changes :
  forall b, length (getCharacterList (blockAfter changes b)) = length (getCharacterList b).
Proof.
  induction changes as [|c rest IH]; intros b; simpl; [done|].
  by rewrite IH, applyChangeToBlock_length.
Qed.

(** After a pass in which overlapping changes agree on their styles,
    every change finds its own style list on every character of its
    slice. *)
Lemma first_pass_settles changes blocks :
  wf_blocks blocks ->
  (forall c, c ∈ changes -> NoDup (change_styles c) /\ 0 <= end_ c) ->
  (forall c b i ch, c ∈ changes -> b ∈ blocks -> covers c b i ->
     getCharacterList b !! i = Some ch ->
     getStyle ch = [] \/ getStyle ch = change_styles c) ->
  (forall c c' b i, c ∈ changes -> c' ∈ changes -> b ∈ blocks ->
     covers c b i -> covers c' b i -> change_styles c' = change_styles c) ->
  forall c, c ∈ changes -> incrementsOf c (map (blockAfter changes) blocks) = O.
Proof.
  intros [Hnd Hwf] Hshape Hinit Hagree c Hc. unfold incrementsOf.
  rewrite lookupBlock_map by (intros; apply blockAfter_key).
  destruct (lookupBlock blocks (blockKey c)) as [b|] eqn:Hb; simpl; [|done].
  pose proof (lookupBlock_elem _ _ _ Hb) as Hin.
  pose proof (lookupBlock_key _ _ _ Hb) as Hkey.
  assert (Hwb : wf_block b) by (eapply Forall_forall; [exact Hwf|done]).
  destruct (Hshape c Hc) as [HS Hend].
  assert (Hlen : getLength (blockAfter changes b) = getLength b).
  { unfold getLength. by rewrite blockAfter_text. }
  assert (Hneed : needToChange (blockAfter changes b) (limited c (blockAfter changes b))
                    (change_styles c) = false).
  { apply needToChange_Forall. cbn. apply Forall_forall. intros ch1 Hch1.
    apply elem_slice in Hch1 as (i & Hi & Hch1).
    - unfold clampedEnd in Hi. rewrite Hlen in Hi.
      destruct (lookup_lt_is_Some_2 (getCharacterList b) i) as [ch Hch].
      { apply lookup_lt_Some in Hch1. by rewrite blockAfter_length in Hch1. }
      assert (Hcov : covers c b i) by (split; [done|by unfold clampedEnd]).
      destruct (blockAfter_settles (change_styles c) i changes HS b ch c) as (ch' & Hch' & Hst).
      + intros c' Hc' Hcov'. by apply (Hagree c c' b i).
      + done.
      + done.
      + done.
      + by apply (Hinit c b i).
      + rewrite Hch1 in Hch'. by injection Hch' as <-.
    - unfold clampedStart. lia.
    - unfold clampedEnd, getLength. lia.
    - unfold clampedEnd. rewrite Hlen, blockAfter_length, (wf_block_length _ Hwb). lia. }
  by rewrite Hneed.
Qed.

(** C1, as the code has it.  Take a well-formed editor state and
    rules whose strategies look only at the key and text of a block
    and do not throw.  Suppose every rule lists each of its styles
    once, every reported range has a non-negative end, the characters
    a reported range covers start out either without style or with
    exactly the style list of the rule, and rules whose ranges share
    a character have the same style list.  Then the state returned by
    one pass is one on which a second pass ends with [changesApplied]
    at zero. *)
Theorem second_pass_applies_nothing decorators state :
  wf_content (getCurrentContent state) ->
  Forall reads_text_only decorators ->
  Forall (fun d => quiet d (getBlockMap (getCurrentContent state))) decorators ->
  Forall (fun d => NoDup (styles d)) decorators ->
  (forall d b r,
     d ∈ decorators -> b ∈ getBlockMap (getCurrentContent state) ->
     r ∈ reported (strategy d b) -> 0 <= r.2) ->
  (forall d b r i ch,
     d ∈ decorators -> b ∈ getBlockMap (getCurrentContent state) ->
     r ∈ reported (strategy d b) ->
     covers (pushed d (getKey b) r) b i ->
     getCharacterList b !! i = Some ch ->
     getStyle ch = [] \/ getStyle ch = styles d) ->
  (forall d d' b r r' i,
     d ∈ decorators -> d' ∈ decorators -> b ∈ getBlockMap (getCurrentContent state) ->
     r ∈ reported (strategy d b) -> r' ∈ reported (strategy d' b) ->
     covers (pushed d (getKey b) r) b i ->
     covers (pushed d' (getKey b) r') b i ->
     styles d' = styles d) ->
  exists state',
    syncExecuteStrategies decorators (fun _ => state) = Ok (Some state') /\
    changesAppliedBy decorators state' = Ok O.
Proof.
  intros Hwf Hread Hquiet Hnodup Hends Hinit Hagree.
  destruct (syncExecuteStrategies_blocks decorators state Hwf Hquiet)
    as (state' & Hsync & Hblocks & _).
  set (blocks := getBlockMap (getCurrentContent state)) in *.
  set (changes := allChanges decorators blocks) in *.
  exists state'. split; [done|].
  assert (Hsame : allChanges decorators (map (blockAfter changes) blocks) = changes).
  { apply allChanges_map; [done|apply blockAfter_key|apply blockAfter_text]. }
  destruct (syncExecuteStrategies_blocks decorators state') as (_ & _ & _ & Hcount).
  { unfold wf_content. rewrite Hblocks. by apply wf_blocks_blockAfter. }
  { rewrite Hblocks. rewrite Forall_forall in Hquiet, Hread. apply Forall_forall.
    intros d Hd.
    apply quiet_map; [by apply Hread|apply blockAfter_key|apply blockAfter_text|].
    by apply Hquiet. }
  rewrite Hcount, Hblocks, Hsame. f_equal.
  rewrite reconcileBlocks_settled; [done|by apply wf_blocks_blockAfter|].
  destruct Hwf as [Hnd Hwfb].
  apply first_pass_settles; [done| | |].
  - intros c (d & b & r & Hd & Hb & Hr & ->)%elem_of_allChanges. simpl. split.
    + rewrite Forall_forall in Hnodup. by apply Hnodup.
    + by apply (Hends d b r).
  - intros c b i ch (d & b' & r & Hd & Hb' & Hr & ->)%elem_of_allChanges Hb Hcov Hch.
    assert (b = b') as <- by (apply (same_key_same_block blocks); [done..|apply Hcov]).
    by apply (Hinit d b r i ch).
  - intros c c' b i (d & b1 & r & Hd & Hb1 & Hr & ->)%elem_of_allChanges
      (d' & b2 & r' & Hd' & Hb2 & Hr' & ->)%elem_of_allChanges Hb Hcov Hcov'.
    assert (b = b1) as <- by (apply (same_key_same_block blocks); [done..|apply Hcov]).
    assert (b = b2) as <- by (apply (same_key_same_block blocks); [done..|apply Hcov']).
    by apply (Hagree d d' b r r' i).
Qed.

Lemma onText_reads_text_only text ranges names :
  reads_text_only {| strategy := Examples.onText text ranges; styles := names |}.
Proof. intros b b' _ Htext. simpl. unfold Examples.onText. by rewrite Htext. Qed.

Lemma second_pass_applies_nothing_witness :
  exists state',
    syncExecuteStrategies [Examples.boldRule; Examples.underlineRule]
      (fun _ => Examples.readmeState) = Ok (Some state') /\
    changesAppliedBy [Examples.boldRule; Examples.underlineRule] state' = Ok O.
Proof.
  apply (second_pass_applies_nothing [Examples.boldRule; Examples.underlineRule]
           Examples.readmeState).
  - apply wf_content_block.
  - constructor; [apply onText_reads_text_only|].
    constructor; [apply onText_reads_text_only|constructor].
  - repeat constructor.
  - constructor; [apply NoDup_singleton|].
    constructor; [apply NoDup_singleton|constructor].
  - intros d b r Hd Hb Hr. simpl in Hb. apply list_elem_of_singleton in Hb as ->.
    apply elem_of_cons in Hd as [->|Hd]; [|apply list_elem_of_singleton in Hd as ->];
      vm_compute in Hr; apply list_elem_of_singleton in Hr as ->; simpl; lia.
  - intros d b r i ch _ Hb _ _ Hch. simpl in Hb. apply list_elem_of_singleton in Hb as ->.
    unfold Examples.block in Hch. cbn [getCharacterList] in Hch.
    apply lookup_replicate_1 in Hch as [-> _]. by left.
  - intros d d' b r r' i Hd Hd' Hb Hr Hr' [_ Hi] [_ Hi'].
    simpl in Hb. apply list_elem_of_singleton in Hb as ->.
    apply elem_of_cons in Hd as [->|Hd]; [|apply list_elem_of_singleton in Hd as ->];
      (apply elem_of_cons in Hd' as [->|Hd']; [|apply list_elem_of_singleton in Hd' as ->]);
      try reflexivity;
      vm_compute in Hr; apply list_elem_of_singleton in Hr as ->;
      vm_compute in Hr'; apply list_elem_of_singleton in Hr' as ->;
      unfold clampedStart, clampedEnd, getLength in Hi, Hi'; simpl in Hi, Hi'; lia.
Defined.

(** C1 as stated fails: with a rule for bold on the characters 0 to 6
    and a rule for italic on the characters 3 to 9 of the same block,
    the second pass finds bold and italic together where each rule
    looks for its own style alone, and [changesApplied] ends at 2
    again. *)
Lemma second_pass_with_overlap_counts_again :
  exists state',
    syncExecuteStrategies [Examples.boldRule; Examples.italicRule]
      (fun _ => Examples.readmeState) = Ok (Some state') /\
    changesAppliedBy [Examples.boldRule; Examples.italicRule] state' = Ok 2%nat /\
    changesAppliedBy [Examples.boldRule; Examples.italicRule] state' <> Ok O.
Proof.
  eexists. split; [reflexivity|]. split; [reflexivity|]. discriminate.
Qed.

(** Each of the other conditions is needed as well.  A range whose
    end is negative is compared on a slice counted from the end of
    the block, but styled nowhere: *)
Example second_pass_with_negative_end :
  exists state',
    syncExecuteStrategies [Examples.backwardRule] (fun _ => Examples.abcState) =
      Ok (Some state') /\
    changesAppliedBy [Examples.backwardRule] state' = Ok 1%nat.
Proof. eexists. split; reflexivity. Qed.

(** a style listed twice is found once on the characters: *)
Example second_pass_with_doubled_style :
  exists state',
    syncExecuteStrategies [Examples.doubledRule] (fun _ => Examples.abcState) =
      Ok (Some state') /\
    changesAppliedBy [Examples.doubledRule] state' = Ok 2%nat.
Proof. eexists. split; reflexivity. Qed.

(** and a style that was there before the pass stays next to the one
    the rule adds: *)
Example second_pass_with_earlier_style :
  exists state',
    syncExecuteStrategies [Examples.abcRule] (fun _ => Examples.italicAbcState) =
      Ok (Some state') /\
    changesAppliedBy [Examples.abcRule] state' = Ok 1%nat.
Proof. eexists. split; reflexivity. Qed.

(** ** The scenario of the README *)

(** The text "*bold* and ~under~" under the two rules of the README:
    one pass puts bold on the characters 0 to 6 and underline on the
    characters 11 to 18, leaves the others without style, and counts
    two changes; a second pass counts none, and the driver returns
    the state it was given. *)
Example readme_first_pass :
  exists state',
    syncExecuteStrategies [Examples.boldRule; Examples.underlineRule]
      (fun _ => Examples.readmeState) = Ok (Some state') /\
    changesAppliedBy [Examples.boldRule; Examples.underlineRule] Examples.readmeState =
      Ok 2%nat /\
    map (fun b => map getStyle (getCharacterList b))
      (getBlockMap (getCurrentContent state')) =
      [replicate 6 ["BOLD"] ++ replicate 5 [] ++ replicate 7 ["UNDERLINE"]] /\
    getInlineStyleOverride state' = Some [] /\
    changesAppliedBy [Examples.boldRule; Examples.underlineRule] state' = Ok O /\
    syncExecuteStrategies [Examples.boldRule; Examples.underlineRule]
      (fun _ => state') = Ok (Some state').
Proof. eexists. repeat split; reflexivity. Qed.

(** A return keystroke with the caret in the bold text "*bold*":
    the guard queues the strip, the strip queues the pass, and the
    pass leaves the host with the styles derived afresh. *)
Example return_key_in_styled_text :
  exists h1 h2 stripped,
    handleReturn [Examples.starRule] (Examples.host Examples.boldState) = Ok h1 /\
    strippedState Examples.boldState = Ok stripped /\
    runTimers 2 h1 =
      (h2, [(StripTimer HostGetter (ThenExecute [Examples.starRule]), None);
            (ExecuteTimer [Examples.starRule] (ConstGetter stripped), None)]) /\
    timers h2 = [] /\
    map (fun b => map getStyle (getCharacterList b))
      (getBlockMap (getCurrentContent stripped)) = [replicate 6 []] /\
    map (fun b => map getStyle (getCharacterList b))
      (getBlockMap (getCurrentContent (editorState h2))) = [replicate 6 ["BOLD"]].
Proof. do 3 eexists. repeat split; reflexivity. Qed.

(** * Further properties of the plugin *)

(** ** What a pass keeps *)

Lemma OrderedSet_add_prefix s o : o `prefix_of` Immutable.OrderedSet_add s o.
Proof.
  unfold Immutable.OrderedSet_add. destruct (decide (s ∈ o)); [done|].
  by apply prefix_app_r.
Qed.

Lemma addAll_prefix styles : forall o, o `prefix_of` addAll styles o.
Proof.
  induction styles as [|s rest IH]; intros o; simpl; [done|].
  etransitivity; [apply (OrderedSet_add_prefix s)|apply IH].
Qed.

Lemma getEntity_applyStyles styles :
  forall ch, getEntity (applyStyles styles ch) = getEntity ch.
Proof.
  unfold applyStyles. induction styles as [|s rest IH]; intros ch; simpl; [done|].
  by rewrite IH.
Qed.

(** Through a list of changes a character keeps its entity, and the
    styles it had stay at the front of its style list. *)
Lemma blockAfter_prefix changes :
  forall b i ch,
    getCharacterList b !! i = Some ch ->
    exists ch',
      getCharacterList (blockAfter changes b) !! i = Some ch' /\
      getEntity ch' = getEntity ch /\
      getStyle ch `prefix_of` getStyle ch'.
Proof.
  induction changes as [|c rest IH]; intros b i ch Hch; simpl.
  - by exists ch.
  - destruct (lookup_applyChangeToBlock c b i ch Hch) as [[_ H1]|[_ H1]].
    + destruct (IH _ _ _ H1) as (ch' & Hch' & Hentity & Hprefix).
      exists ch'. split; [done|]. split.
      * by rewrite Hentity, getEntity_applyStyles.
      * etransitivity; [|exact Hprefix].
        rewrite getStyle_applyStyles. apply addAll_prefix.
    + by apply IH.
Qed.

Lemma syncExecuteStrategies_selection decorators getEditorState state' :
  syncExecuteStrategies decorators getEditorState = Ok (Some state') ->
  getSelection state' = getSelection (getEditorState tt).
Proof.
  unfold syncExecuteStrategies.
  destruct (collectChanges decorators (getEditorState tt)) as [changes|e]; [|done].
  cbn [bind]. unfold applyChangesToState.
  destruct (reduceChanges changes (getCurrentContent (getEditorState tt)))
    as [[content applied]|e]; [|done].
  cbn [bind]. intros [= <-]. by destruct (Nat.eqb applied 0).
Qed.

(** X1.  A pass never takes a style away and never touches an entity:
    in the state the driver returns, every character still carries
    its entity, and the styles it carried before the pass stand, in
    the same order, at the front of its style list. *)
Theorem reconciliation_only_adds_styles decorators state block (i : nat) ch0 :
  wf_content (getCurrentContent state) ->
  Forall (fun d => quiet d (getBlockMap (getCurrentContent state))) decorators ->
  block ∈ getBlockMap (getCurrentContent state) ->
  getCharacterList block !! i = Some ch0 ->
  exists state' block' ch,
    syncExecuteStrategies decorators (fun _ => state) = Ok (Some state') /\
    getBlockForKey (getCurrentContent state') (getKey block) = Some block' /\
    getCharacterList block' !! i = Some ch /\
    getEntity ch = getEntity ch0 /\
    getStyle ch0 `prefix_of` getStyle ch.
Proof.
  intros Hwf Hquiet Hblock Hch0.
  destruct (syncExecuteStrategies_blocks decorators state Hwf Hquiet)
    as (state' & Hsync & Hblocks & _).
  destruct (blockAfter_prefix
              (allChanges decorators (getBlockMap (getCurrentContent state)))
              block i ch0 Hch0) as (ch & Hch & Hentity & Hprefix).
  exists state', (blockAfter
                    (allChanges decorators (getBlockMap (getCurrentContent state))) block), ch.
  split; [done|]. split; [|done].
  unfold getBlockForKey. rewrite Hblocks.
  rewrite lookupBlock_map by (intros; apply blockAfter_key).
  destruct Hwf as [Hnd _]. by rewrite lookupBlock_NoDup.
Qed.

Lemma reconciliation_only_adds_styles_witness :
  exists state' block' ch,
    syncExecuteStrategies [Examples.abcRule] (fun _ => Examples.italicAbcState) =
      Ok (Some state') /\
    getBlockForKey (getCurrentContent state') "a" = Some block' /\
    getCharacterList block' !! 1%nat = Some ch /\
    getEntity ch = getEntity (Examples.styled ["ITALIC"]) /\
    getStyle (Examples.styled ["ITALIC"]) `prefix_of` getStyle ch.
Proof.
  apply (reconciliation_only_adds_styles [Examples.abcRule] Examples.italicAbcState
           {| getKey := "a"; getText := "abc";
              getCharacterList := replicate 3 (Examples.styled ["ITALIC"]) |}
           1 (Examples.styled ["ITALIC"])).
  - split; simpl; [apply NoDup_singleton|]. by repeat constructor.
  - repeat constructor.
  - left.
  - reflexivity.
Defined.

(** X2.  A pass leaves the text alone: the state the driver returns
    has the same blocks in the same order, each with its key, its
    text and as many character records as before; the document is
    still well formed and the selection is the one of the input.
    The hook [onChange] returns a state with the same document. *)
Theorem reconciliation_keeps_text decorators state :
  wf_content (getCurrentContent state) ->
  Forall (fun d => quiet d (getBlockMap (getCurrentContent state))) decorators ->
  exists state' state'',
    syncExecuteStrategies decorators (fun _ => state) = Ok (Some state') /\
    onChange decorators state = Ok state'' /\
    getCurrentContent state'' = getCurrentContent state' /\
    Forall2
      (fun b b' => getKey b' = getKey b /\ getText b' = getText b /\
                   length (getCharacterList b') = length (getCharacterList b))
      (getBlockMap (getCurrentContent state))
      (getBlockMap (getCurrentContent state')) /\
    wf_content (getCurrentContent state') /\
    getSelection state' = getSelection state.
Proof.
  intros Hwf Hquiet.
  destruct (syncExecuteStrategies_blocks decorators state Hwf Hquiet)
    as (state' & Hsync & Hblocks & _).
  exists state', (setInlineStyleOverride state' []).
  split; [done|]. split; [unfold onChange; by rewrite Hsync|]. split; [done|].
  split; [|split].
  - rewrite Hblocks. apply Forall2_fmap_r, Forall_Forall2_diag, Forall_forall.
    intros b _. simpl.
    by rewrite blockAfter_key, blockAfter_text, blockAfter_length.
  - unfold wf_content. rewrite Hblocks. by apply wf_blocks_blockAfter.
  - by apply (syncExecuteStrategies_selection _ _ _ Hsync).
Qed.

Lemma reconciliation_keeps_text_witness :
  exists state' state'',
    syncExecuteStrategies [Examples.boldRule; Examples.italicRule]
      (fun _ => Examples.readmeState) = Ok (Some state') /\
    onChange [Examples.boldRule; Examples.italicRule] Examples.readmeState = Ok state'' /\
    getCurrentContent state'' = getCurrentContent state' /\
    Forall2
      (fun b b' => getKey b' = getKey b /\ getText b' = getText b /\
                   length (getCharacterList b') = length (getCharacterList b))
      (getBlockMap (getCurrentContent Examples.readmeState))
      (getBlockMap (getCurrentContent state')) /\
    wf_content (getCurrentContent state') /\
    getSelection state' = getSelection Examples.readmeState.
Proof.
  apply (reconciliation_keeps_text [Examples.boldRule; Examples.italicRule]
           Examples.readmeState).
  - apply wf_content_block.
  - repeat constructor.
Defined.

(** ** The counter and the document *)

(** X3.  The no-op test is sound: when the fold over the changes ends
    with [changesApplied] at zero, no block of the document has been
    changed by it, so [applyChangesToState], which then returns the
    state it was given, drops nothing. *)
Theorem zero_counter_means_no_change changes state content' :
  wf_content (getCurrentContent state) ->
  Forall (fun c => blockKey c ∈ map getKey (getBlockMap (getCurrentContent state))) changes ->
  reduceChanges changes (getCurrentContent state) = Ok (content', O) ->
  getBlockMap content' = getBlockMap (getCurrentContent state) /\
  applyChangesToState changes state = Ok (Some state).
Proof.
  intros Hwf Hkeys Hrun.
  destruct (reduceChanges_spec changes (getCurrentContent state) Hwf Hkeys)
    as (content1 & Hrun1 & Hblocks).
  rewrite Hrun in Hrun1. injection Hrun1 as <- Hzero. split.
  - rewrite Hblocks. apply reconcileBlocks_unchanged; [apply Hwf|done].
  - unfold applyChangesToState. by rewrite Hrun.
Qed.

Lemma zero_counter_means_no_change_witness :
  exists content',
    getBlockMap content' = getBlockMap (getCurrentContent Examples.boldState) /\
    applyChangesToState [Examples.boldChange] Examples.boldState =
      Ok (Some Examples.boldState).
Proof.
  eexists.
  apply (zero_counter_means_no_change [Examples.boldChange] Examples.boldState).
  - split; simpl; [apply NoDup_singleton|]. by repeat constructor.
  - repeat constructor.
  - reflexivity.
Defined.

(** X4.  A change for a block that is not in the document makes
    [applyChangesToState] raise a TypeError, [block.getText()] being
    called on [undefined] in [limitSelection]; the changes before it
    are lost with the exception and no state is returned. *)
Theorem change_for_missing_block_raises before change after state :
  wf_content (getCurrentContent state) ->
  Forall (fun c => blockKey c ∈ map getKey (getBlockMap (getCurrentContent state))) before ->
  blockKey change ∉ map getKey (getBlockMap (getCurrentContent state)) ->
  applyChangesToState (before ++ change :: after) state =
    Throw (TypeError "block is undefined").
Proof.
  intros Hwf Hkeys Hmissing. unfold applyChangesToState, reduceChanges.
  rewrite reduce_app.
  destruct (reduce_changeReducer before (getCurrentContent state) O Hwf Hkeys)
    as (content1 & Hrun1 & Hblocks1).
  rewrite Hrun1. cbn [bind reduce]. unfold changeReducer at 1.
  assert (Hnone : getBlockForKey content1 (blockKey change) = None).
  { unfold getBlockForKey. rewrite Hblocks1.
    destruct (lookupBlock _ (blockKey change)) as [b|] eqn:Hb; [|done].
    exfalso. apply Hmissing. rewrite <- (reconcileBlocks_keys before _ O).
    apply lookupBlock_is_Some. by exists b. }
  by rewrite Hnone.
Qed.

Lemma change_for_missing_block_raises_witness :
  applyChangesToState
    ([Examples.boldChange] ++
       {| start := 0; end_ := 1; change_styles := ["BOLD"]; blockKey := "z" |} ::
       [Examples.underlineChange])
    Examples.readmeState = Throw (TypeError "block is undefined").
Proof.
  apply (change_for_missing_block_raises [Examples.boldChange] _
           [Examples.underlineChange] Examples.readmeState).
  - apply wf_content_block.
  - repeat constructor.
  - simpl. intros Hin. apply list_elem_of_singleton in Hin. discriminate.
Defined.

Lemma slice_empty {A : Type} (l : list A) a f :
  0 <= f <= a -> Immutable.slice l a f = [].
Proof.
  intros Hle. unfold Immutable.slice, Immutable.resolveIndex.
  destruct (Z.ltb_spec a 0); [lia|]. destruct (Z.ltb_spec f 0); [lia|].
  replace (Z.to_nat _) with O by lia. done.
Qed.

(** X5.  Reports that come to nothing after clamping are ignored: when
    every change has a non-negative end and a clamped end that does
    not lie after its clamped start (a range past the end of the
    text, or an empty or reversed one), the fold changes no block and
    counts nothing, and [applyChangesToState] returns the state it
    was given. *)
Theorem empty_ranges_are_ignored changes state :
  wf_content (getCurrentContent state) ->
  Forall
    (fun c => exists b,
       getBlockForKey (getCurrentContent state) (blockKey c) = Some b /\
       0 <= end_ c /\
       Z.min (getLength b) (end_ c) <= Z.max (start c) 0)
    changes ->
  applyChangesToState changes state = Ok (Some state) /\
  exists content',
    reduceChanges changes (getCurrentContent state) = Ok (content', O) /\
    getBlockMap content' = getBlockMap (getCurrentContent state).
Proof.
  intros Hwf Hempty.
  assert (Hkeys : Forall (fun c => blockKey c ∈ map getKey
                                     (getBlockMap (getCurrentContent state))) changes).
  { eapply Forall_impl; [exact Hempty|]. intros c (b & Hb & _).
    apply lookupBlock_is_Some. by exists b. }
  assert (Hzero : forall c, c ∈ changes ->
            incrementsOf c (getBlockMap (getCurrentContent state)) = O).
  { intros c Hc. rewrite Forall_forall in Hempty.
    destruct (Hempty c Hc) as (b & Hb & Hend & Hle).
    unfold incrementsOf. unfold getBlockForKey in Hb. rewrite Hb.
    assert (Hneed : needToChange b (limited c b) (change_styles c) = false).
    { apply needToChange_Forall. cbn. rewrite slice_empty; [constructor|].
      unfold clampedStart, clampedEnd, getLength in *. lia. }
    by rewrite Hneed. }
  destruct (reduceChanges_spec changes (getCurrentContent state) Hwf Hkeys)
    as (content' & Hrun & Hblocks).
  rewrite reconcileBlocks_settled in Hrun, Hblocks by (apply Hwf || done).
  split; [unfold applyChangesToState; by rewrite Hrun|]. by exists content'.
Qed.

Lemma empty_ranges_are_ignored_witness :
  applyChangesToState
    [{| start := 5; end_ := 7; change_styles := ["BOLD"]; blockKey := "a" |};
     {| start := 2; end_ := 1; change_styles := ["BOLD"]; blockKey := "a" |}]
    Examples.abcState = Ok (Some Examples.abcState) /\
  exists content',
    reduceChanges
      [{| start := 5; end_ := 7; change_styles := ["BOLD"]; blockKey := "a" |};
       {| start := 2; end_ := 1; change_styles := ["BOLD"]; blockKey := "a" |}]
      (getCurrentContent Examples.abcState) = Ok (content', O) /\
    getBlockMap content' = getBlockMap (getCurrentContent Examples.abcState).
Proof.
  apply (empty_ranges_are_ignored _ Examples.abcState).
  - apply wf_content_block.
  - constructor; [|constructor; [|constructor]];
      (exists (Examples.block "a" "abc"); split; [reflexivity|];
       unfold getLength; simpl; lia).
Defined.

(** The counter is carried along: starting the fold with [n] more
    gives [n] more at the end. *)
Lemma reduce_styleReducer_counted content selection styles0 styles :
  forall acc n m,
    reduce (styleReducer content selection styles0) styles (acc, (n + m)%nat) =
    counted n (reduce (styleReducer content selection styles0) styles (acc, m)).
Proof.
  induction styles as [|style rest IH]; intros acc n m; [done|].
  cbn [reduce]. unfold styleReducer at 1 3.
  destruct (getBlockForKey content (getStartKey selection)) as [block|]; [|done].
  destruct (applyInlineStyle acc selection style) as [acc'|e]; [|done].
  cbn [bind]. destruct (needToChange block selection styles0); [|apply IH].
  rewrite <- IH. do 2 f_equal. lia.
Qed.

Lemma changeReducer_counted content n m change :
  changeReducer (content, (n + m)%nat) change =
  counted n (changeReducer (content, m) change).
Proof.
  unfold changeReducer.
  destruct (limitSelection _ _) as [selection|e]; [|done].
  cbn [bind]. apply reduce_styleReducer_counted.
Qed.

Lemma reduce_changeReducer_counted changes :
  forall content n m,
    reduce changeReducer changes (content, (n + m)%nat) =
    counted n (reduce changeReducer changes (content, m)).
Proof.
  induction changes as [|change rest IH]; intros content n m; [done|].
  cbn [reduce]. rewrite changeReducer_counted.
  destruct (changeReducer (content, m) change) as [[content1 m1]|e]; [|done].
  cbn [counted bind]. apply IH.
Qed.

(** X6.  The fold over the changes can be cut anywhere: folding a
    list of changes gives the document that folding its first part
    and then, from there, its second part gives, and the counter is
    the sum of the two counters; an exception in either part is the
    exception of the whole. *)
Theorem reduceChanges_in_two_parts first second content :
  reduceChanges (first ++ second) content =
  let* (content1, applied1) := reduceChanges first content in
  counted applied1 (reduceChanges second content1).
Proof.
  unfold reduceChanges. rewrite reduce_app.
  destruct (reduce changeReducer first (content, O)) as [[content1 applied1]|e]; [|done].
  cbn [bind]. rewrite <- reduce_changeReducer_counted. by rewrite Nat.add_0_r.
Qed.

(** ** Nothing to do *)

Lemma collectChanges_no_blocks decorators state :
  getBlockMap (getCurrentContent state) = [] ->
  collectChanges decorators state = Ok [].
Proof.
  intros Hempty. unfold collectChanges.
  induction decorators as [|d rest IH]; [done|].
  cbn [reduce]. unfold getChangesToApplyForState at 1. rewrite Hempty. exact IH.
Qed.

(** X7.  Without rules, or on a document without blocks, the driver
    returns the state it was given; on a document without blocks no
    strategy is called, so that even a strategy that would throw does
    no harm.  The hook [onChange] then returns that state with an
    empty style override. *)
Theorem nothing_to_reconcile decorators state :
  decorators = [] \/ getBlockMap (getCurrentContent state) = [] ->
  syncExecuteStrategies decorators (fun _ => state) = Ok (Some state) /\
  onChange decorators state = Ok (setInlineStyleOverride state []).
Proof.
  intros Hnothing.
  assert (Hcollect : collectChanges decorators state = Ok []).
  { destruct Hnothing as [->|Hempty]; [done|by apply collectChanges_no_blocks]. }
  assert (Hsync : syncExecuteStrategies decorators (fun _ => state) = Ok (Some state)).
  { unfold syncExecuteStrategies. by rewrite Hcollect. }
  split; [done|]. unfold onChange. by rewrite Hsync.
Qed.

Lemma nothing_to_reconcile_witness :
  syncExecuteStrategies [Examples.failingRule] (fun _ => Examples.editor [] None) =
    Ok (Some (Examples.editor [] None)) /\
  onChange [Examples.failingRule] (Examples.editor [] None) =
    Ok (setInlineStyleOverride (Examples.editor [] None) []).
Proof.
  apply (nothing_to_reconcile [Examples.failingRule] (Examples.editor [] None)).
  by right.
Defined.

(** ** Clamping a selection *)

(** X8.  [limitSelection] leaves a forward selection that lies inside
    the block as it is, and clamping a forward selection a second time
    changes nothing more. *)
Theorem limitSelection_settles selection block :
  isBackward selection = false ->
  (0 <= anchorOffset selection -> focusOffset selection <= getLength block ->
   limitSelection selection (Some block) = Ok selection) /\
  exists clamped,
    limitSelection selection (Some block) = Ok clamped /\
    limitSelection clamped (Some block) = Ok clamped /\
    isBackward clamped = false.
Proof.
  intros Hforward. destruct selection as [ak ao fk fo back focus].
  simpl in Hforward. subst back. unfold limitSelection. cbn. split.
  - intros Ha Hf. by rewrite Z.max_l, Z.min_r by lia.
  - eexists. split; [done|]. split; [|done].
    rewrite (Z.max_l (Z.max ao 0)) by lia.
    by rewrite (Z.min_r _ (Z.min (getLength block) fo)) by lia.
Qed.

Lemma limitSelection_settles_witness :
  (0 <= anchorOffset (createSelectionForChange Examples.boldChange) ->
   focusOffset (createSelectionForChange Examples.boldChange) <=
     getLength (Examples.block "a" Examples.readme) ->
   limitSelection (createSelectionForChange Examples.boldChange)
     (Some (Examples.block "a" Examples.readme)) =
     Ok (createSelectionForChange Examples.boldChange)) /\
  exists clamped,
    limitSelection (createSelectionForChange Examples.boldChange)
      (Some (Examples.block "a" Examples.readme)) = Ok clamped /\
    limitSelection clamped (Some (Examples.block "a" Examples.readme)) = Ok clamped /\
    isBackward clamped = false.
Proof.
  apply (limitSelection_settles (createSelectionForChange Examples.boldChange)
           (Examples.block "a" Examples.readme)).
  reflexivity.
Defined.

(** ** A second pass and the order of the rules *)

Lemma covers_blockAfter change changes b i :
  covers change (blockAfter changes b) i <-> covers change b i.
Proof.
  unfold covers, clampedEnd, getLength. by rewrite blockAfter_key, blockAfter_text.
Qed.

(** A character that has every style the changes covering it bring is
    left as it is. *)
Lemma blockAfter_fixed i changes :
  forall b ch,
    (forall c, c ∈ changes -> covers c b i ->
               forall s, s ∈ change_styles c -> s ∈ getStyle ch) ->
    getCharacterList b !! i = Some ch ->
    getCharacterList (blockAfter changes b) !! i = Some ch.
Proof.
  induction changes as [|c rest IH]; intros b ch Hhas Hch; simpl; [done|].
  assert (Hstep : getCharacterList (applyChangeToBlock c b) !! i = Some ch).
  { destruct (lookup_applyChangeToBlock c b i ch Hch) as [[Hcov H1]|[_ H1]]; [|done].
    rewrite H1. f_equal. apply applyStyles_present. apply Hhas; [left|done]. }
  apply IH; [|done]. intros c' Hc' Hcov. apply Hhas; [by right|].
  exact (proj1 (covers_applyChange c' c b i) Hcov).
Qed.

Lemma ContentBlock_ext b b' :
  getKey b = getKey b' -> getText b = getText b' ->
  getCharacterList b = getCharacterList b' -> b = b'.
Proof. destruct b, b'. simpl. by intros -> -> ->. Qed.

(** Going through the same changes again changes nothing more. *)
Lemma blockAfter_idem changes b :
  blockAfter changes (blockAfter changes b) = blockAfter changes b.
Proof.
  apply ContentBlock_ext; [by rewrite !blockAfter_key|by rewrite !blockAfter_text|].
  apply list_eq. intros i.
  destruct (getCharacterList (blockAfter changes b) !! i) as [ch1|] eqn:Hch1.
  - apply blockAfter_fixed; [|done]. intros c Hc Hcov s Hs.
    pose proof (proj1 (covers_blockAfter c changes b i) Hcov) as Hcov'.
    destruct (lookup_lt_is_Some_2 (getCharacterList b) i) as [ch Hch].
    { apply lookup_lt_Some in Hch1. by rewrite blockAfter_length in Hch1. }
    destruct (blockAfter_covers changes c b i ch Hc Hcov' Hch) as (ch' & Hch' & Hsub).
    rewrite Hch1 in Hch'. injection Hch' as <-. by apply Hsub.
  - apply lookup_ge_None in Hch1. apply lookup_ge_None.
    by rewrite blockAfter_length.
Qed.

(** X9.  With strategies that look only at the key and text of a
    block, running the hook [onChange] on its own result leaves the
    document as the first run made it: the same blocks with the same
    styles on every character, whatever [changesApplied] says on the
    second run. *)
Theorem onChange_twice_same_document decorators state :
  wf_content (getCurrentContent state) ->
  Forall reads_text_only decorators ->
  Forall (fun d => quiet d (getBlockMap (getCurrentContent state))) decorators ->
  exists state1 state2,
    onChange decorators state = Ok state1 /\
    onChange decorators state1 = Ok state2 /\
    getBlockMap (getCurrentContent state2) = getBlockMap (getCurrentContent state1) /\
    getInlineStyleOverride state1 = Some [] /\
    getInlineStyleOverride state2 = Some [].
Proof.
  intros Hwf Hread Hquiet.
  destruct (syncExecuteStrategies_blocks decorators state Hwf Hquiet)
    as (state' & Hsync & Hblocks & _).
  set (blocks := getBlockMap (getCurrentContent state)) in *.
  set (changes := allChanges decorators blocks) in *.
  destruct (syncExecuteStrategies_blocks decorators (setInlineStyleOverride state' []))
    as (state'' & Hsync2 & Hblocks2 & _).
  { unfold wf_content. cbn [setInlineStyleOverride getCurrentContent].
    rewrite Hblocks. by apply wf_blocks_blockAfter. }
  { cbn [setInlineStyleOverride getCurrentContent]. rewrite Hblocks.
    rewrite Forall_forall in Hquiet, Hread. apply Forall_forall. intros d Hd.
    apply quiet_map; [by apply Hread|apply blockAfter_key|apply blockAfter_text|].
    by apply Hquiet. }
  exists (setInlineStyleOverride state' []), (setInlineStyleOverride state'' []).
  split; [unfold onChange; by rewrite Hsync|].
  split; [unfold onChange; by rewrite Hsync2|].
  split; [|done].
  cbn [setInlineStyleOverride getCurrentContent] in *.
  rewrite Hblocks2, Hblocks.
  rewrite allChanges_map by (done || apply blockAfter_key || apply blockAfter_text).
  rewrite map_map. apply map_ext. intros b. apply blockAfter_idem.
Qed.

Lemma onChange_twice_same_document_witness :
  exists state1 state2,
    onChange [Examples.boldRule; Examples.italicRule] Examples.readmeState = Ok state1 /\
    onChange [Examples.boldRule; Examples.italicRule] state1 = Ok state2 /\
    getBlockMap (getCurrentContent state2) = getBlockMap (getCurrentContent state1) /\
    getInlineStyleOverride state1 = Some [] /\
    getInlineStyleOverride state2 = Some [].
Proof.
  apply (onChange_twice_same_document [Examples.boldRule; Examples.italicRule]
           Examples.readmeState).
  - apply wf_content_block.
  - constructor; [apply onText_reads_text_only|].
    constructor; [apply onText_reads_text_only|constructor].
  - repeat constructor.
Defined.

(** X10.  The order of the rules decides the order of the styles in a
    character's list, not which styles it carries: with the rules in
    any other order the driver returns a document in which every
    character carries the same styles. *)
Theorem rule_order_keeps_styles decorators decorators' state block (i : nat) ch0 :
  wf_content (getCurrentContent state) ->
  Forall (fun d => quiet d (getBlockMap (getCurrentContent state))) decorators ->
  decorators ≡ₚ decorators' ->
  block ∈ getBlockMap (getCurrentContent state) ->
  getCharacterList block !! i = Some ch0 ->
  exists state1 state2 block1 block2 ch1 ch2,
    syncExecuteStrategies decorators (fun _ => state) = Ok (Some state1) /\
    syncExecuteStrategies decorators' (fun _ => state) = Ok (Some state2) /\
    getBlockForKey (getCurrentContent state1) (getKey block) = Some block1 /\
    getBlockForKey (getCurrentContent state2) (getKey block) = Some block2 /\
    getCharacterList block1 !! i = Some ch1 /\
    getCharacterList block2 !! i = Some ch2 /\
    forall s, s ∈ getStyle ch1 <-> s ∈ getStyle ch2.
Proof.
  intros Hwf Hquiet Hperm Hblock Hch0.
  assert (Hquiet' : Forall (fun d => quiet d (getBlockMap (getCurrentContent state)))
                      decorators').
  { rewrite Forall_forall in Hquiet. apply Forall_forall. intros d Hd.
    apply Hquiet. by rewrite Hperm. }
  destruct (syncExecuteStrategies_blocks decorators state Hwf Hquiet)
    as (state1 & Hsync1 & Hblocks1 & _).
  destruct (syncExecuteStrategies_blocks decorators' state Hwf Hquiet')
    as (state2 & Hsync2 & Hblocks2 & _).
  set (blocks := getBlockMap (getCurrentContent state)) in *.
  destruct (blockAfter_styles (allChanges decorators blocks) block i ch0 Hch0)
    as (ch1 & Hch1 & Hiff1).
  destruct (blockAfter_styles (allChanges decorators' blocks) block i ch0 Hch0)
    as (ch2 & Hch2 & Hiff2).
  destruct Hwf as [Hnd _].
  exists state1, state2, (blockAfter (allChanges decorators blocks) block),
    (blockAfter (allChanges decorators' blocks) block), ch1, ch2.
  split; [done|]. split; [done|]. split.
  { unfold getBlockForKey. rewrite Hblocks1.
    rewrite lookupBlock_map by (intros; apply blockAfter_key).
    by rewrite lookupBlock_NoDup. }
  split.
  { unfold getBlockForKey. rewrite Hblocks2.
    rewrite lookupBlock_map by (intros; apply blockAfter_key).
    by rewrite lookupBlock_NoDup. }
  split; [done|]. split; [done|].
  intros s. rewrite Hiff1, Hiff2.
  assert (Hsame : forall c, c ∈ allChanges decorators blocks <->
                            c ∈ allChanges decorators' blocks).
  { intros c. rewrite !elem_of_allChanges.
    split; intros (d & b & r & Hd & Hrest); exists d, b, r; (split; [|done]).
    - by rewrite <- Hperm.
    - by rewrite Hperm. }
  split; (intros [Hs|(c & Hc & Hrest)]; [by left|right; exists c; split; [|done]]);
    by apply Hsame.
Qed.

Lemma rule_order_keeps_styles_witness :
  exists state1 state2 block1 block2 ch1 ch2,
    syncExecuteStrategies [Examples.boldRule; Examples.italicRule]
      (fun _ => Examples.readmeState) = Ok (Some state1) /\
    syncExecuteStrategies [Examples.italicRule; Examples.boldRule]
      (fun _ => Examples.readmeState) = Ok (Some state2) /\
    getBlockForKey (getCurrentContent state1)
      (getKey (Examples.block "a" Examples.readme)) = Some block1 /\
    getBlockForKey (getCurrentContent state2)
      (getKey (Examples.block "a" Examples.readme)) = Some block2 /\
    getCharacterList block1 !! 4%nat = Some ch1 /\
    getCharacterList block2 !! 4%nat = Some ch2 /\
    forall s, s ∈ getStyle ch1 <-> s ∈ getStyle ch2.
Proof.
  apply (rule_order_keeps_styles [Examples.boldRule; Examples.italicRule]
           [Examples.italicRule; Examples.boldRule] Examples.readmeState
           (Examples.block "a" Examples.readme) 4 Examples.plain).
  - apply wf_content_block.
  - repeat constructor.
  - apply perm_swap.
  - left.
  - reflexivity.
Defined.

(** ** The state after the strip *)

Lemma wf_blocks_stripped blocks :
  NoDup (map getKey blocks) -> wf_blocks (map stripBlock blocks).
Proof.
  intros Hnd. split.
  - by rewrite map_getKey_map.
  - apply Forall_map, Forall_forall. intros b _. unfold wf_block. simpl.
    apply length_replicate.
Qed.

Lemma getInlineStyleAt_unstyled b offset :
  Forall (fun ch => getStyle ch = []) (getCharacterList b) ->
  getInlineStyleAt b offset = [].
Proof.
  intros Hplain. unfold getInlineStyleAt, Immutable.get.
  destruct (_ && _); [|done].
  destruct (getCharacterList b !! _) as [ch|] eqn:Hch; [|done].
  rewrite Forall_forall in Hplain. apply Hplain.
  by apply list_elem_of_lookup_2 in Hch.
Qed.

Lemma blocksAbove_elem x blocks :
  forall fromKey seen, x ∈ blocksAbove blocks fromKey seen -> x ∈ blocks \/ x ∈ seen.
Proof.
  induction blocks as [|b rest IH]; intros fromKey seen; simpl.
  - by intros ?%elem_of_nil.
  - destruct (decide (getKey b = fromKey)); [by right|].
    intros [Hin|Hin]%IH; [left; by right|].
    apply elem_of_cons in Hin as [->|Hin]; [left; left|by right].
Qed.

Lemma getCurrentInlineStyle_unstyled state style :
  getInlineStyleOverride state = None ->
  Forall (fun b => Forall (fun ch => getStyle ch = []) (getCharacterList b))
    (getBlockMap (getCurrentContent state)) ->
  getCurrentInlineStyle state = Ok style ->
  style = [].
Proof.
  intros Hnone Hplain. unfold getCurrentInlineStyle. rewrite Hnone.
  destruct (getBlockForKey _ _) as [startBlock|] eqn:Hblock; [|done].
  assert (Hstart : Forall (fun ch => getStyle ch = []) (getCharacterList startBlock)).
  { rewrite Forall_forall in Hplain. by apply Hplain, (lookupBlock_elem _ _ _ Hblock). }
  assert (Hup : lookUpwardForInlineStyle (getCurrentContent state)
                  (getStartKey (getSelection state)) = []).
  { unfold lookUpwardForInlineStyle.
    destruct (filter _ _) as [|b rest] eqn:Hfilter; [done|].
    apply getInlineStyleAt_unstyled.
    assert (Hb : b ∈ filter (fun b => 0 < getLength b)
                   (blocksAbove (getBlockMap (getCurrentContent state))
                      (getStartKey (getSelection state)) [])) by (rewrite Hfilter; left).
    apply list_elem_of_filter in Hb as [_ Hb].
    apply blocksAbove_elem in Hb as [Hb|Hb]; [|by apply elem_of_nil in Hb].
    rewrite Forall_forall in Hplain. by apply Hplain. }
  rewrite Hup, !getInlineStyleAt_unstyled by done.
  by repeat destruct (_ : bool); intros [= <-].
Qed.

(** X11.  The state the strip builds is well formed and keeps the
    selection; stripping it again leaves its document as it is; and
    the guard, asked about it, never asks for another strip. *)
Theorem stripped_state_is_settled state :
  wf_content (getCurrentContent state) ->
  exists stripped,
    strippedState state = Ok stripped /\
    wf_content (getCurrentContent stripped) /\
    getSelection stripped = getSelection state /\
    (exists again,
       strippedState stripped = Ok again /\
       getBlockMap (getCurrentContent again) = getBlockMap (getCurrentContent stripped)) /\
    forall afterwards h r,
      editorState h = stripped ->
      checkIfWeNeedToStripStyles HostGetter afterwards h = Ok r ->
      r = (h, false).
Proof.
  intros Hwf. destruct (strippedContent_spec _ Hwf) as (content1 & Hrun1 & Hblocks1).
  set (stripped := acceptSelection (push state content1 None) (getSelection state)).
  assert (Hblocks : getBlockMap (getCurrentContent stripped) =
                    map stripBlock (getBlockMap (getCurrentContent state))).
  { unfold stripped. cbn [acceptSelection updateSelection getCurrentContent].
    by rewrite push_blocks. }
  assert (Hwf1 : wf_content (getCurrentContent stripped)).
  { unfold wf_content. rewrite Hblocks. apply wf_blocks_stripped, Hwf. }
  exists stripped. split; [unfold strippedState; by rewrite Hrun1|].
  split; [done|]. split; [done|]. split.
  - destruct (strippedContent_spec _ Hwf1) as (content2 & Hrun2 & Hblocks2).
    eexists. split; [unfold strippedState; by rewrite Hrun2|].
    cbn [acceptSelection updateSelection getCurrentContent].
    rewrite push_blocks, Hblocks2, Hblocks, map_map. done.
  - intros afterwards h r Hh. unfold checkIfWeNeedToStripStyles. cbn [callGetter].
    rewrite Hh.
    destruct (getCurrentInlineStyle (forceSelection stripped (getSelection stripped)))
      as [style|e] eqn:Hstyle; [|done].
    apply getCurrentInlineStyle_unstyled in Hstyle; [|done|].
    + subst style. cbn. by intros [= <-].
    + cbn [forceSelection updateSelection getCurrentContent]. rewrite Hblocks.
      apply Forall_map, Forall_forall. intros b _. simpl. by apply Forall_replicate.
Qed.

Lemma stripped_state_is_settled_witness :
  exists stripped,
    strippedState Examples.boldState = Ok stripped /\
    wf_content (getCurrentContent stripped) /\
    getSelection stripped = getSelection Examples.boldState /\
    (exists again,
       strippedState stripped = Ok again /\
       getBlockMap (getCurrentContent again) = getBlockMap (getCurrentContent stripped)) /\
    forall afterwards h r,
      editorState h = stripped ->
      checkIfWeNeedToStripStyles HostGetter afterwards h = Ok r ->
      r = (h, false).
Proof.
  apply (stripped_state_is_settled Examples.boldState).
  split; simpl; [apply NoDup_singleton|]. by repeat constructor.
Defined.

(** ** Backspace *)

(** X12.  [handleKeyCommand] acts on "backspace" only.  With a
    current inline style that is not empty it queues the strip.  The
    strip, when its timer runs, takes the host's state of that moment,
    and queues the pass on the stripped state; the pass, when its
    timer runs, gives the host the document derived from the stripped
    one, whatever the host's state has become in between, and leaves
    the queue alone. *)
Theorem backspace_strips_and_recomputes decorators h currentInlineStyle :
  getCurrentInlineStyle
    (forceSelection (editorState h) (getSelection (editorState h))) = Ok currentInlineStyle ->
  currentInlineStyle <> [] ->
  handleKeyCommand decorators "backspace" h =
    Ok (setTimeout h (StripTimer HostGetter (ThenExecute decorators))) /\
  (forall command, command <> "backspace" -> handleKeyCommand decorators command h = Ok h) /\
  forall h1,
    wf_content (getCurrentContent (editorState h1)) ->
    Forall (fun d => quiet d (map stripBlock
                                (getBlockMap (getCurrentContent (editorState h1)))))
      decorators ->
    exists stripped,
      runTimer (StripTimer HostGetter (ThenExecute decorators)) h1 =
        (setTimeout h1 (ExecuteTimer decorators (ConstGetter stripped)), None) /\
      forall h2, exists h3,
        runTimer (ExecuteTimer decorators (ConstGetter stripped)) h2 = (h3, None) /\
        timers h3 = timers h2 /\
        let blank := map stripBlock (getBlockMap (getCurrentContent (editorState h1))) in
        getBlockMap (getCurrentContent (editorState h3)) =
          map (blockAfter (allChanges decorators blank)) blank.
Proof.
  intros Hstyle Hne. split; [|split].
  - unfold handleKeyCommand. rewrite decide_True by done.
    unfold checkIfWeNeedToStripStyles. cbn [callGetter]. rewrite Hstyle. cbn [bind].
    by destruct currentInlineStyle.
  - intros command Hcommand. unfold handleKeyCommand. by rewrite decide_False.
  - intros h1 Hwf Hquiet.
    destruct (strippedContent_spec _ Hwf) as (content1 & Hrun1 & Hblocks1).
    set (stripped := acceptSelection (push (editorState h1) content1 None)
                       (getSelection (editorState h1))).
    assert (Hblocks : getBlockMap (getCurrentContent stripped) =
                      map stripBlock (getBlockMap (getCurrentContent (editorState h1)))).
    { unfold stripped. cbn [acceptSelection updateSelection getCurrentContent].
      by rewrite push_blocks. }
    exists stripped. split.
    + unfold runTimer, stripStyles, strippedState. cbn [callGetter]. by rewrite Hrun1.
    + intros h2.
      destruct (syncExecuteStrategies_blocks decorators stripped)
        as (state' & Hsync & Hfinal & _).
      { unfold wf_content. rewrite Hblocks. apply wf_blocks_stripped, Hwf. }
      { by rewrite Hblocks. }
      exists (setEditorState h2 state'). split; [|split; [done|]].
      * unfold runTimer.
        change (callGetter (ConstGetter stripped) h2) with (fun _ : unit => stripped).
        by rewrite Hsync.
      * cbn [setEditorState editorState]. by rewrite Hfinal, Hblocks.
Qed.

Lemma backspace_strips_and_recomputes_witness :
  handleKeyCommand [Examples.starRule] "backspace" (Examples.host Examples.boldState) =
    Ok (setTimeout (Examples.host Examples.boldState)
          (StripTimer HostGetter (ThenExecute [Examples.starRule]))) /\
  (forall command, command <> "backspace" ->
     handleKeyCommand [Examples.starRule] command (Examples.host Examples.boldState) =
       Ok (Examples.host Examples.boldState)) /\
  forall h1,
    wf_content (getCurrentContent (editorState h1)) ->
    Forall (fun d => quiet d (map stripBlock
                                (getBlockMap (getCurrentContent (editorState h1)))))
      [Examples.starRule] ->
    exists stripped,
      runTimer (StripTimer HostGetter (ThenExecute [Examples.starRule])) h1 =
        (setTimeout h1 (ExecuteTimer [Examples.starRule] (ConstGetter stripped)), None) /\
      forall h2, exists h3,
        runTimer (ExecuteTimer [Examples.starRule] (ConstGetter stripped)) h2 = (h3, None) /\
        timers h3 = timers h2 /\
        let blank := map stripBlock (getBlockMap (getCurrentContent (editorState h1))) in
        getBlockMap (getCurrentContent (editorState h3)) =
          map (blockAfter (allChanges [Examples.starRule] blank)) blank.
Proof.
  apply (backspace_strips_and_recomputes [Examples.starRule]
           (Examples.host Examples.boldState) ["BOLD"]).
  - reflexivity.
  - discriminate.
Defined.

(** ** The collected changes *)

(** X13.  When no strategy throws, the collection yields one change
    for every report, none merged and none dropped: rule after rule
    in the order of the rules, for each rule block after block in
    document order, for each block in the order of the reports, every
    change carrying the key of its block and the styles of its rule.
    Every collected change names a block of the document. *)
Theorem collected_changes_in_order decorators state :
  Forall (fun d => quiet d (getBlockMap (getCurrentContent state))) decorators ->
  exists changes,
    collectChanges decorators state = Ok changes /\
    changes =
      flat_map
        (fun d =>
           flat_map
             (fun b =>
                map (fun r => {| start := r.1; end_ := r.2;
                                 change_styles := styles d; blockKey := getKey b |})
                  (reported (strategy d b)))
             (getBlockMap (getCurrentContent state)))
        decorators /\
    Forall (fun c => blockKey c ∈ map getKey (getBlockMap (getCurrentContent state)))
      changes.
Proof.
  intros Hquiet. eexists. split; [by apply collectChanges_quiet|].
  split; [done|]. apply allChanges_keys.
Qed.

Lemma collected_changes_in_order_witness :
  exists changes,
    collectChanges [Examples.boldRule; Examples.underlineRule] Examples.readmeState =
      Ok changes /\
    changes =
      flat_map
        (fun d =>
           flat_map
             (fun b =>
                map (fun r => {| start := r.1; end_ := r.2;
                                 change_styles := styles d; blockKey := getKey b |})
                  (reported (strategy d b)))
             (getBlockMap (getCurrentContent Examples.readmeState)))
        [Examples.boldRule; Examples.underlineRule] /\
    Forall
      (fun c => blockKey c ∈ map getKey (getBlockMap (getCurrentContent Examples.readmeState)))
      changes.
Proof.
  apply (collected_changes_in_order [Examples.boldRule; Examples.underlineRule]
           Examples.readmeState).
  repeat constructor.
Defined.
